(** * Encuentros: proximity visibility, encounter lifecycle, chats and map
      clustering of [App.tsx], embedded in Rocq.

    The React component keeps its state in [useState] cells and changes it
    through event handlers.  Here the cells are the fields of one record
    [State], every handler is a function [State -> State] that reads the
    values its closure captured (the state it is called in) and applies its
    [setX] calls in program order, and the two asynchronous continuations of
    the program (the code after [await] in [handleConnect] and the
    [setTimeout] callback of [sendMessage]) are separate functions that carry
    the values their closures captured and run in a later state.

    JavaScript numbers that hold coordinates, distances and the zoom level are
    binary64 floats ([PrimFloat]); clock readings and counters are integers
    ([Z] and [nat]). *)

From Stdlib Require Import Floats List String ZArith Bool Lia DecimalString.
From Stdlib Require Import Permutation.
From Stdlib Require DecimalPos DecimalZ.
Import ListNotations.

Set Warnings "-inexact-float".
Set Implicit Arguments.

Local Open Scope string_scope.
Local Open Scope list_scope.

(** ** JavaScript runtime primitives used by the program *)

Module JS.

Local Open Scope float_scope.

(** A nonzero finite binary64 value is [m * 2^e]; these two tests decide
    whether it is an integer, and whether it is an odd one. *)
Definition is_integral (x : float) : bool :=
  match Prim2SF x with
  | S754_zero _ => true
  | S754_finite _ m e =>
      (0 <=? e)%Z || (Z.pos m mod 2 ^ (- e) =? 0)%Z
  | _ => false
  end.

Definition is_odd_integral (x : float) : bool :=
  match Prim2SF x with
  | S754_finite _ m e =>
      if (0 <? e)%Z then false
      else (Z.pos m mod 2 ^ (- e) =? 0)%Z && Z.odd (Z.pos m / 2 ^ (- e))
  | _ => false
  end.

Section Exponentiate.

(** ECMAScript leaves the last step of [Number::exponentiate] to the
    implementation ("an implementation-approximated value"); every other
    step is exact and written out below. *)
Variable pow_approx : float -> float -> float.

Definition Math_pow (base exponent : float) : float :=
  if is_nan exponent then nan
  else if exponent =? 0 then 1
  else if is_nan base then nan
  else if base =? infinity then
    (if 0 <? exponent then infinity else 0)
  else if base =? neg_infinity then
    (if 0 <? exponent
     then (if is_odd_integral exponent then neg_infinity else infinity)
     else (if is_odd_integral exponent then neg_zero else 0))
  else if base =? 0 then
    (if get_sign base
     then (if 0 <? exponent
           then (if is_odd_integral exponent then neg_zero else 0)
           else (if is_odd_integral exponent then neg_infinity else infinity))
     else (if 0 <? exponent then 0 else infinity))
  else if exponent =? infinity then
    (if 1 <? abs base then infinity
     else if abs base =? 1 then nan else 0)
  else if exponent =? neg_infinity then
    (if 1 <? abs base then 0
     else if abs base =? 1 then nan else infinity)
  else if (base <? 0) && negb (is_integral exponent) then nan
  else pow_approx base exponent.

End Exponentiate.

Definition Math_sqrt (x : float) : float := sqrt x.

(** [array.length] as a number. *)
Definition number_of_nat (n : nat) : float :=
  of_uint63 (Uint63.of_Z (Z.of_nat n)).

(** [`${n}`] for an integer [n]. *)
Definition toString (n : Z) : string :=
  NilZero.string_of_int (Z.to_int n).

End JS.

(** ** types.ts *)

Inductive EncounterStatus : Set :=
| PENDING
| LIKED_BY_ME
| LIKED_BY_THEM
| MATCHED
| HIDDEN.

Definition status_eqb (a b : EncounterStatus) : bool :=
  match a, b with
  | PENDING, PENDING
  | LIKED_BY_ME, LIKED_BY_ME
  | LIKED_BY_THEM, LIKED_BY_THEM
  | MATCHED, MATCHED
  | HIDDEN, HIDDEN => true
  | _, _ => false
  end.

Inductive EncounterTag : Set :=
| Flechazo
| Cruzamos_miradas
| Interes
| Curiosidad
| Me_atraes
| Me_gustas.

Record Location : Set := { lat : float; lng : float }.

Inductive Gender : Set := male | female | other.

Module UserProfile.
Record t : Set := mk {
  id : string;
  name : string;
  age : option Z;
  gender : option Gender;
  bio : string;
  quickMessage : option string;
  images : list string;
  coverImage : option string;
  isCurrentUser : bool
}.
End UserProfile.

Module Encounter.
Record t : Set := mk {
  id : string;
  userId : string;
  userProfile : UserProfile.t;
  title : string;
  description : string;
  location : Location;
  timestamp : Z;
  image : option string;
  status : EncounterStatus;
  distance : option float;
  tags : list EncounterTag
}.

(** [{ ...e, status: st }] *)
Definition with_status (e : t) (st : EncounterStatus) : t :=
  mk (id e) (userId e) (userProfile e) (title e) (description e)
     (location e) (timestamp e) (image e) st (distance e) (tags e).
End Encounter.

Module ChatMessage.
Record t : Set := mk {
  id : string;
  senderId : string;
  text : string;
  timestamp : Z
}.
End ChatMessage.

Module Chat.
Record t : Set := mk {
  encounterId : string;
  partnerName : string;
  partnerImage : option string;
  messages : list ChatMessage.t;
  unreadCount : Z
}.

(** [{ ...c, unreadCount: n }] *)
Definition with_unreadCount (c : t) (n : Z) : t :=
  mk (encounterId c) (partnerName c) (partnerImage c) (messages c) n.

(** [{ ...c, messages: ms }] *)
Definition with_messages (c : t) (ms : list ChatMessage.t) : t :=
  mk (encounterId c) (partnerName c) (partnerImage c) ms (unreadCount c).
End Chat.

(** ** The state cells of [App] *)

Module View.
Inductive t : Set := main | create | details | chat.
Definition eqb (a b : t) : bool :=
  match a, b with
  | main, main | create, create | details, details | chat, chat => true
  | _, _ => false
  end.
End View.

Module Tab.
Inductive t : Set := map | explore | matches | profile.
End Tab.

Module ExploreMode.
Inductive t : Set := grouped | list | drilldown.
End ExploreMode.

Module Notification.
Inductive kind : Set := success | info | error.
Record t : Set := mk { message : string; type : kind }.
End Notification.

Record MapFilters : Set := {
  mine : bool;
  possible : bool;
  likedMe : bool;
  match_ : bool
}.

Record MatchOverlay : Set := {
  visible : bool;
  partner : option UserProfile.t
}.

Record State : Set := mkState {
  activeTab : Tab.t;
  currentView : View.t;
  mapCenter : option Location;
  userProfile : UserProfile.t;
  myEncounters : list Encounter.t;
  nearbyEncounters : list Encounter.t;
  chats : list Chat.t;
  selectedEncounter : option Encounter.t;
  activeChat : option Chat.t;
  mapZoom : float;
  newEncounterTitle : string;
  newEncounterDesc : string;
  newEncounterImage : option string;
  newEncounterTags : list EncounterTag;
  exploreMode : ExploreMode.t;
  showHidden : bool;
  mapFilters : MapFilters;
  isTyping : bool;
  showUnmatchDialog : bool;
  showMatchOverlay : MatchOverlay;
  notification : option Notification.t
}.

(** ** State setters

    [setX v] replaces the cell; the cells the program also updates with
    [setX(prev => ...)] take the update function, and a plain [setX(v)] on
    them is [setX (fun _ => v)]. *)

Definition setActiveTab (v : Tab.t) (s : State) : State :=
  mkState v (currentView s) (mapCenter s) (userProfile s) (myEncounters s)
    (nearbyEncounters s) (chats s) (selectedEncounter s) (activeChat s)
    (mapZoom s) (newEncounterTitle s) (newEncounterDesc s)
    (newEncounterImage s) (newEncounterTags s) (exploreMode s)
    (showHidden s) (mapFilters s) (isTyping s) (showUnmatchDialog s)
    (showMatchOverlay s) (notification s).

Definition setCurrentView (v : View.t) (s : State) : State :=
  mkState (activeTab s) v (mapCenter s) (userProfile s) (myEncounters s)
    (nearbyEncounters s) (chats s) (selectedEncounter s) (activeChat s)
    (mapZoom s) (newEncounterTitle s) (newEncounterDesc s)
    (newEncounterImage s) (newEncounterTags s) (exploreMode s)
    (showHidden s) (mapFilters s) (isTyping s) (showUnmatchDialog s)
    (showMatchOverlay s) (notification s).

Definition setMyEncounters (f : (list Encounter.t) -> list Encounter.t) (s : State) : State :=
  mkState (activeTab s) (currentView s) (mapCenter s) (userProfile s)
    (f (myEncounters s)) (nearbyEncounters s) (chats s)
    (selectedEncounter s) (activeChat s) (mapZoom s) (newEncounterTitle s)
    (newEncounterDesc s) (newEncounterImage s) (newEncounterTags s)
    (exploreMode s) (showHidden s) (mapFilters s) (isTyping s)
    (showUnmatchDialog s) (showMatchOverlay s) (notification s).

Definition setNearbyEncounters (f : (list Encounter.t) -> list Encounter.t) (s : State) : State :=
  mkState (activeTab s) (currentView s) (mapCenter s) (userProfile s)
    (myEncounters s) (f (nearbyEncounters s)) (chats s)
    (selectedEncounter s) (activeChat s) (mapZoom s) (newEncounterTitle s)
    (newEncounterDesc s) (newEncounterImage s) (newEncounterTags s)
    (exploreMode s) (showHidden s) (mapFilters s) (isTyping s)
    (showUnmatchDialog s) (showMatchOverlay s) (notification s).

Definition setChats (f : (list Chat.t) -> list Chat.t) (s : State) : State :=
  mkState (activeTab s) (currentView s) (mapCenter s) (userProfile s)
    (myEncounters s) (nearbyEncounters s) (f (chats s))
    (selectedEncounter s) (activeChat s) (mapZoom s) (newEncounterTitle s)
    (newEncounterDesc s) (newEncounterImage s) (newEncounterTags s)
    (exploreMode s) (showHidden s) (mapFilters s) (isTyping s)
    (showUnmatchDialog s) (showMatchOverlay s) (notification s).

Definition setSelectedEncounter (v : option Encounter.t) (s : State) : State :=
  mkState (activeTab s) (currentView s) (mapCenter s) (userProfile s)
    (myEncounters s) (nearbyEncounters s) (chats s) v (activeChat s)
    (mapZoom s) (newEncounterTitle s) (newEncounterDesc s)
    (newEncounterImage s) (newEncounterTags s) (exploreMode s)
    (showHidden s) (mapFilters s) (isTyping s) (showUnmatchDialog s)
    (showMatchOverlay s) (notification s).

Definition setActiveChat (f : (option Chat.t) -> option Chat.t) (s : State) : State :=
  mkState (activeTab s) (currentView s) (mapCenter s) (userProfile s)
    (myEncounters s) (nearbyEncounters s) (chats s) (selectedEncounter s)
    (f (activeChat s)) (mapZoom s) (newEncounterTitle s)
    (newEncounterDesc s) (newEncounterImage s) (newEncounterTags s)
    (exploreMode s) (showHidden s) (mapFilters s) (isTyping s)
    (showUnmatchDialog s) (showMatchOverlay s) (notification s).

Definition setNewEncounterTitle (v : string) (s : State) : State :=
  mkState (activeTab s) (currentView s) (mapCenter s) (userProfile s)
    (myEncounters s) (nearbyEncounters s) (chats s) (selectedEncounter s)
    (activeChat s) (mapZoom s) v (newEncounterDesc s) (newEncounterImage s)
    (newEncounterTags s) (exploreMode s) (showHidden s) (mapFilters s)
    (isTyping s) (showUnmatchDialog s) (showMatchOverlay s) (notification s).

Definition setNewEncounterDesc (v : string) (s : State) : State :=
  mkState (activeTab s) (currentView s) (mapCenter s) (userProfile s)
    (myEncounters s) (nearbyEncounters s) (chats s) (selectedEncounter s)
    (activeChat s) (mapZoom s) (newEncounterTitle s) v (newEncounterImage s)
    (newEncounterTags s) (exploreMode s) (showHidden s) (mapFilters s)
    (isTyping s) (showUnmatchDialog s) (showMatchOverlay s) (notification s).

Definition setNewEncounterImage (v : option string) (s : State) : State :=
  mkState (activeTab s) (currentView s) (mapCenter s) (userProfile s)
    (myEncounters s) (nearbyEncounters s) (chats s) (selectedEncounter s)
    (activeChat s) (mapZoom s) (newEncounterTitle s) (newEncounterDesc s) v
    (newEncounterTags s) (exploreMode s) (showHidden s) (mapFilters s)
    (isTyping s) (showUnmatchDialog s) (showMatchOverlay s) (notification s).

Definition setNewEncounterTags (v : list EncounterTag) (s : State) : State :=
  mkState (activeTab s) (currentView s) (mapCenter s) (userProfile s)
    (myEncounters s) (nearbyEncounters s) (chats s) (selectedEncounter s)
    (activeChat s) (mapZoom s) (newEncounterTitle s) (newEncounterDesc s)
    (newEncounterImage s) v (exploreMode s) (showHidden s) (mapFilters s)
    (isTyping s) (showUnmatchDialog s) (showMatchOverlay s) (notification s).

Definition setExploreMode (v : ExploreMode.t) (s : State) : State :=
  mkState (activeTab s) (currentView s) (mapCenter s) (userProfile s)
    (myEncounters s) (nearbyEncounters s) (chats s) (selectedEncounter s)
    (activeChat s) (mapZoom s) (newEncounterTitle s) (newEncounterDesc s)
    (newEncounterImage s) (newEncounterTags s) v (showHidden s)
    (mapFilters s) (isTyping s) (showUnmatchDialog s) (showMatchOverlay s)
    (notification s).

Definition setIsTyping (v : bool) (s : State) : State :=
  mkState (activeTab s) (currentView s) (mapCenter s) (userProfile s)
    (myEncounters s) (nearbyEncounters s) (chats s) (selectedEncounter s)
    (activeChat s) (mapZoom s) (newEncounterTitle s) (newEncounterDesc s)
    (newEncounterImage s) (newEncounterTags s) (exploreMode s)
    (showHidden s) (mapFilters s) v (showUnmatchDialog s)
    (showMatchOverlay s) (notification s).

Definition setShowUnmatchDialog (v : bool) (s : State) : State :=
  mkState (activeTab s) (currentView s) (mapCenter s) (userProfile s)
    (myEncounters s) (nearbyEncounters s) (chats s) (selectedEncounter s)
    (activeChat s) (mapZoom s) (newEncounterTitle s) (newEncounterDesc s)
    (newEncounterImage s) (newEncounterTags s) (exploreMode s)
    (showHidden s) (mapFilters s) (isTyping s) v (showMatchOverlay s)
    (notification s).

Definition setShowMatchOverlay (v : MatchOverlay) (s : State) : State :=
  mkState (activeTab s) (currentView s) (mapCenter s) (userProfile s)
    (myEncounters s) (nearbyEncounters s) (chats s) (selectedEncounter s)
    (activeChat s) (mapZoom s) (newEncounterTitle s) (newEncounterDesc s)
    (newEncounterImage s) (newEncounterTags s) (exploreMode s)
    (showHidden s) (mapFilters s) (isTyping s) (showUnmatchDialog s) v
    (notification s).

Definition setNotification (v : option Notification.t) (s : State) : State :=
  mkState (activeTab s) (currentView s) (mapCenter s) (userProfile s)
    (myEncounters s) (nearbyEncounters s) (chats s) (selectedEncounter s)
    (activeChat s) (mapZoom s) (newEncounterTitle s) (newEncounterDesc s)
    (newEncounterImage s) (newEncounterTags s) (exploreMode s)
    (showHidden s) (mapFilters s) (isTyping s) (showUnmatchDialog s)
    (showMatchOverlay s) v.

(** Two updates in program order. *)
Notation "s |> f" := (f s) (at level 45, left associativity, only parsing).

(** ** Visibility

    [./utils/geo] exports the great-circle distance and the match radius;
    the filter is parametric in both. *)

Section Visibility.

Variable getDistanceInMeters : float -> float -> float -> float -> float.
Variable MATCH_RADIUS : float.

(** [getDistanceInMeters(a.location.lat, a.location.lng,
                         b.location.lat, b.location.lng) <= MATCH_RADIUS] *)
Definition withinRadius (a b : Encounter.t) : bool :=
  let d :=
    getDistanceInMeters
      (lat (Encounter.location a)) (lng (Encounter.location a))
      (lat (Encounter.location b)) (lng (Encounter.location b)) in
  (d <=? MATCH_RADIUS)%float.

(** The [useMemo] of [visibleEncounters], as a function of the three cells it
    depends on. *)
Definition visibleOf
    (myEncounters nearbyEncounters : list Encounter.t) (showHidden : bool)
  : list Encounter.t :=
  match myEncounters with
  | [] => []
  | _ :: _ =>
      filter
        (fun other =>
           if negb showHidden
              && status_eqb (Encounter.status other) HIDDEN
           then false
           else
             let isCloseToAnyMine :=
               existsb (fun mine => withinRadius mine other) myEncounters in
             isCloseToAnyMine)
        nearbyEncounters
  end.

Definition visibleEncounters (s : State) : list Encounter.t :=
  visibleOf (myEncounters s) (nearbyEncounters s) (showHidden s).

End Visibility.

(** ** Handlers *)

(** [showNotification] shows a toast; the timer that hides it again after
    three seconds only clears this cell and is left out. *)
Definition showNotification
    (message : string) (type : Notification.kind) (s : State) : State :=
  s |> setNotification (Some (Notification.mk message type)).

(** [!str] *)
Definition falsy (str : string) : bool := (str =? "")%string.

Definition MAX_ENCOUNTERS_REACHED : string :=
  "Límite de 5 encuentros alcanzado".

Definition capacityError : Notification.t :=
  Notification.mk MAX_ENCOUNTERS_REACHED Notification.error.

(** [now] is the value of [Date.now()] during the call, when its two reads
    (for the id and for the timestamp) return the same value;
    [handleCreateEncounterAt] below keeps the two reads apart. *)
Definition handleCreateEncounter (now : Z) (s : State) : State :=
  match mapCenter s with
  | None => s
  | Some center =>
      if falsy (newEncounterTitle s) || falsy (newEncounterDesc s) then s
      else if (5 <=? List.length (myEncounters s))%nat then
        s |> showNotification MAX_ENCOUNTERS_REACHED Notification.error
      else
        let newEncounter :=
          Encounter.mk
            ("mine-" ++ JS.toString now)
            (UserProfile.id (userProfile s))
            (userProfile s)
            (newEncounterTitle s)
            (newEncounterDesc s)
            center
            now
            (newEncounterImage s)
            PENDING
            (Some 0%float)
            (newEncounterTags s) in
        s |> setMyEncounters (fun prev => newEncounter :: prev)
          |> setNewEncounterTitle ""
          |> setNewEncounterDesc ""
          |> setNewEncounterImage None
          |> setNewEncounterTags []
          |> setCurrentView View.main
          |> setActiveTab Tab.explore
          |> setExploreMode ExploreMode.grouped
          |> showNotification "Encuentro publicado con éxito"
               Notification.success
  end.

(** [a || b] on strings where [a] may be undefined. *)
Definition or_default (a : option string) (b : string) : string :=
  match a with
  | Some str => if falsy str then b else str
  | None => b
  end.

Definition handleQuickPublish (now : Z) (s : State) : State :=
  match mapCenter s with
  | None => s
  | Some center =>
      if (5 <=? List.length (myEncounters s))%nat then
        s |> showNotification MAX_ENCOUNTERS_REACHED Notification.error
      else
        let newEncounter :=
          Encounter.mk
            ("mine-quick-" ++ JS.toString now)
            (UserProfile.id (userProfile s))
            (userProfile s)
            "Miradas Cruzadas"
            (or_default (UserProfile.quickMessage (userProfile s))
               "Me llamaste la atención, me pareciste linda e interesante")
            center
            now
            (hd_error (UserProfile.images (userProfile s)))
            PENDING
            (Some 0%float)
            [Cruzamos_miradas] in
        s |> setMyEncounters (fun prev => newEncounter :: prev)
          |> showNotification "¡Encuentro publicado rápidamente!"
               Notification.success
          |> setActiveTab Tab.explore
          |> setCurrentView View.main
  end.

(** The two publish handlers with the two reads of [Date.now()] kept apart:
    [idNow] is the reading that goes into the id, [tsNow] the later one that
    is stored as the timestamp. *)
Definition handleCreateEncounterAt (idNow tsNow : Z) (s : State) : State :=
  match mapCenter s with
  | None => s
  | Some center =>
      if falsy (newEncounterTitle s) || falsy (newEncounterDesc s) then s
      else if (5 <=? List.length (myEncounters s))%nat then
        s |> showNotification MAX_ENCOUNTERS_REACHED Notification.error
      else
        let newEncounter :=
          Encounter.mk
            ("mine-" ++ JS.toString idNow)
            (UserProfile.id (userProfile s))
            (userProfile s)
            (newEncounterTitle s)
            (newEncounterDesc s)
            center
            tsNow
            (newEncounterImage s)
            PENDING
            (Some 0%float)
            (newEncounterTags s) in
        s |> setMyEncounters (fun prev => newEncounter :: prev)
          |> setNewEncounterTitle ""
          |> setNewEncounterDesc ""
          |> setNewEncounterImage None
          |> setNewEncounterTags []
          |> setCurrentView View.main
          |> setActiveTab Tab.explore
          |> setExploreMode ExploreMode.grouped
          |> showNotification "Encuentro publicado con éxito"
               Notification.success
  end.

Definition handleQuickPublishAt (idNow tsNow : Z) (s : State) : State :=
  match mapCenter s with
  | None => s
  | Some center =>
      if (5 <=? List.length (myEncounters s))%nat then
        s |> showNotification MAX_ENCOUNTERS_REACHED Notification.error
      else
        let newEncounter :=
          Encounter.mk
            ("mine-quick-" ++ JS.toString idNow)
            (UserProfile.id (userProfile s))
            (userProfile s)
            "Miradas Cruzadas"
            (or_default (UserProfile.quickMessage (userProfile s))
               "Me llamaste la atención, me pareciste linda e interesante")
            center
            tsNow
            (hd_error (UserProfile.images (userProfile s)))
            PENDING
            (Some 0%float)
            [Cruzamos_miradas] in
        s |> setMyEncounters (fun prev => newEncounter :: prev)
          |> showNotification "¡Encuentro publicado rápidamente!"
               Notification.success
          |> setActiveTab Tab.explore
          |> setCurrentView View.main
  end.

(** The trash button of an own post in the profile tab. *)
Definition handleDeleteEncounter (encounter : Encounter.t) (s : State)
  : State :=
  s |> setMyEncounters
         (filter (fun e =>
            negb (Encounter.id e =? Encounter.id encounter)%string))
    |> showNotification "Encuentro eliminado" Notification.info.

(** *** Lifecycle: connect, reject, unmatch *)

Definition MATCH_TEXT : string := "¡Es un Match!".

Definition isInstantMatch (encounter : Encounter.t) : bool :=
  status_eqb (Encounter.status encounter) LIKED_BY_THEM.

(** [handleConnect] up to its [await]: everything it does when the candidate
    is not an instant match, and the status change and the overlay when it
    is. *)
Definition handleConnect_sync (encounter : Encounter.t) (s : State) : State :=
  let newStatus := if isInstantMatch encounter then MATCHED else LIKED_BY_ME in
  let updatedEncounter := Encounter.with_status encounter newStatus in
  let s1 :=
    s |> setNearbyEncounters
           (List.map (fun e =>
              if (Encounter.id e =? Encounter.id encounter)%string
              then updatedEncounter else e))
      |> setSelectedEncounter (Some updatedEncounter) in
  if isInstantMatch encounter then
    s1 |> setShowMatchOverlay
            {| visible := true;
               partner := Some (Encounter.userProfile encounter) |}
  else
    s1 |> showNotification "Le has dado 'Me Gusta'" Notification.success.

(** The chat [handleConnect] builds once [generateInitialMessage] has
    answered with [initialMsg]. *)
Definition matchChat (encounter : Encounter.t) (initialMsg : string) (now : Z)
  : Chat.t :=
  Chat.mk
    (Encounter.id encounter)
    (UserProfile.name (Encounter.userProfile encounter))
    (hd_error (UserProfile.images (Encounter.userProfile encounter)))
    [ ChatMessage.mk "sys-1" "system" MATCH_TEXT now;
      ChatMessage.mk "initial-1" (Encounter.userId encounter) initialMsg
        (now + 1000) ]
    1.

(** [handleConnect] after its [await], in the state [s] the application is in
    when the opener arrives. *)
Definition handleConnect_resume
    (encounter : Encounter.t) (initialMsg : string) (now : Z) (s : State)
  : State :=
  s |> setChats (fun prev => matchChat encounter initialMsg now :: prev).

(** [handleConnect] when nothing else happens while it waits. *)
Definition handleConnect
    (encounter : Encounter.t) (initialMsg : string) (now : Z) (s : State)
  : State :=
  if isInstantMatch encounter then
    s |> handleConnect_sync encounter
      |> handleConnect_resume encounter initialMsg now
  else
    s |> handleConnect_sync encounter.

Definition handleReject (s : State) : State :=
  match selectedEncounter s with
  | None => s
  | Some selected =>
      let updated := Encounter.with_status selected HIDDEN in
      s |> setNearbyEncounters
             (List.map (fun e =>
                if (Encounter.id e =? Encounter.id selected)%string
                then updated else e))
        |> setSelectedEncounter None
        |> setCurrentView View.main
        |> showNotification "Encuentro ocultado" Notification.info
  end.

Definition handleUnmatch (s : State) : State :=
  match selectedEncounter s with
  | None => s
  | Some selected =>
      s |> setNearbyEncounters
             (List.map (fun e =>
                if (Encounter.id e =? Encounter.id selected)%string
                then Encounter.with_status e PENDING else e))
        |> setChats
             (filter (fun c =>
                negb (Chat.encounterId c =? Encounter.id selected)%string))
        |> setShowUnmatchDialog false
        |> setSelectedEncounter None
        |> setCurrentView View.main
        |> setActiveChat (fun _ => None)
        |> showNotification "Match cancelado" Notification.info
  end.

(** The buttons the details view renders for the selected encounter. *)
Inductive DetailsAction : Set :=
| AskUnmatch
| OpenChat
| Reject
| Connect.

Definition detailsActions (selected : Encounter.t) : list DetailsAction :=
  let isMatched := status_eqb (Encounter.status selected) MATCHED in
  let isLiked := status_eqb (Encounter.status selected) LIKED_BY_ME in
  if isMatched then [AskUnmatch; OpenChat]
  else if isLiked then []
  else [Reject; Connect].

(** *** Chats *)

Definition findChat (encounterId : string) (cs : list Chat.t)
  : option Chat.t :=
  find (fun c => (Chat.encounterId c =? encounterId)%string) cs.

Definition recoveryChat (enc : Encounter.t) (now : Z) : Chat.t :=
  Chat.mk
    (Encounter.id enc)
    (UserProfile.name (Encounter.userProfile enc))
    (hd_error (UserProfile.images (Encounter.userProfile enc)))
    [ ChatMessage.mk "sys-recovery" "system" MATCH_TEXT now ]
    0.

Definition openChat (encounterId : string) (now : Z) (s : State) : State :=
  let '(s1, chat) :=
    match findChat encounterId (chats s) with
    | Some c => (s, Some c)
    | None =>
        match
          find (fun e => (Encounter.id e =? encounterId)%string)
            (nearbyEncounters s)
        with
        | Some enc =>
            let newChat := recoveryChat enc now in
            (s |> setChats (fun prev => prev ++ [newChat]), Some newChat)
        | None => (s, None)
        end
    end in
  match chat with
  | Some c =>
      let updatedChat := Chat.with_unreadCount c 0 in
      s1 |> setChats
              (List.map (fun c' =>
                 if (Chat.encounterId c' =? encounterId)%string
                 then updatedChat else c'))
         |> setActiveChat (fun _ => Some updatedChat)
         |> setCurrentView View.chat
         |> setShowMatchOverlay {| visible := false; partner := None |}
  | None => s1
  end.

Definition handleViewProfile (encounterId : string) (s : State) : State :=
  match
    find (fun e => (Encounter.id e =? encounterId)%string)
      (nearbyEncounters s)
  with
  | Some enc =>
      s |> setSelectedEncounter (Some enc) |> setCurrentView View.details
  | None => s
  end.

(** What the [setTimeout] callback of [sendMessage] captured when it was
    scheduled: the chat with the user's message appended, and the
    [activeChat] and [currentView] of the render that sent the message. *)
Record PendingReply : Set := {
  sent_updatedChat : Chat.t;
  sent_activeChat : Chat.t;
  sent_currentView : View.t
}.

Definition sendMessage (text : string) (now : Z) (s : State)
  : State * option PendingReply :=
  match activeChat s with
  | None => (s, None)
  | Some active =>
      let msg :=
        ChatMessage.mk ("msg-" ++ JS.toString now)
          (UserProfile.id (userProfile s)) text now in
      let updatedChat :=
        Chat.with_messages active (Chat.messages active ++ [msg]) in
      (s |> setActiveChat (fun _ => Some updatedChat)
         |> setChats
              (List.map (fun c =>
                 if (Chat.encounterId c =? Chat.encounterId active)%string
                 then updatedChat else c))
         |> setIsTyping true,
       Some {| sent_updatedChat := updatedChat;
               sent_activeChat := active;
               sent_currentView := currentView s |})
  end.

Definition REPLY_TEXT : string := "¡Jaja! Totalmente. ¿Sigues por la zona?".

(** [replyChat] of the callback: the captured chat with the reply
    appended. *)
Definition replyChat (p : PendingReply) (now : Z) : Chat.t :=
  let updatedChat := sent_updatedChat p in
  let reply :=
    ChatMessage.mk ("reply-" ++ JS.toString now) "partner" REPLY_TEXT now in
  Chat.with_messages updatedChat (Chat.messages updatedChat ++ [reply]).

(** The callback, 2.5 s later, in the state [s] of that moment. *)
Definition replyTimeout (p : PendingReply) (now : Z) (s : State) : State :=
  let active := sent_activeChat p in
  let s1 :=
    s |> setIsTyping false
      |> setActiveChat
           (fun prev =>
              match prev with
              | Some c =>
                  if (Chat.encounterId c =? Chat.encounterId active)%string
                  then Some (replyChat p now) else prev
              | None => prev
              end)
      |> setChats
           (List.map (fun c =>
              if (Chat.encounterId c =? Chat.encounterId active)%string
              then
                if View.eqb (sent_currentView p) View.chat
                   && (Chat.encounterId active =? Chat.encounterId c)%string
                then replyChat p now
                else Chat.with_unreadCount (replyChat p now)
                       (Chat.unreadCount c + 1)
              else c)) in
  if negb (View.eqb (sent_currentView p) View.chat) then
    s1 |> showNotification ("Nuevo mensaje de " ++ Chat.partnerName active)
            Notification.success
  else s1.

(** ** Map markers and clustering *)

Record Cluster : Set := {
  cluster_id : string;
  cluster_lat : float;
  cluster_lng : float;
  count : nat
}.

Record Markers : Set := {
  clusters : list Cluster;
  singles : list Encounter.t
}.

(** [processedIds.has(id)] on the set of ids added so far. *)
Definition has (processedIds : list string) (id : string) : bool :=
  existsb (String.eqb id) processedIds.

Definition threshold (mapZoom : float) : float :=
  (if mapZoom <? 14 then 0.005
   else if mapZoom <? 16 then 0.001
   else 0.0002)%float.

Section Clustering.

Variable pow_approx : float -> float -> float.

(** [Math.sqrt(Math.pow(current.lat - other.lat,
                        Math.pow(current.lng - other.lng, 2)))],
    with the parentheses where the source has them. *)
Definition clusterDist (current other : Encounter.t) : float :=
  JS.Math_sqrt
    (JS.Math_pow pow_approx
       (lat (Encounter.location current) - lat (Encounter.location other))
       (JS.Math_pow pow_approx
          (lng (Encounter.location current) - lng (Encounter.location other))
          2))%float.

(** The body of the inner [forEach], on the group and the set it mutates. *)
Definition joinStep (threshold : float) (current : Encounter.t)
    (acc : list Encounter.t * list string) (other : Encounter.t)
  : list Encounter.t * list string :=
  let '(clusterGroup, processedIds) := acc in
  if negb (has processedIds (Encounter.id other)) then
    let dist := clusterDist current other in
    if (dist <? threshold)%float then
      (clusterGroup ++ [other], Encounter.id other :: processedIds)
    else acc
  else acc.

(** [group.reduce((sum, item) => sum + f(item), 0) / group.length] *)
Definition average (f : Encounter.t -> float) (group : list Encounter.t)
  : float :=
  (fold_left (fun sum item => sum + f item) group 0
   / JS.number_of_nat (List.length group))%float.

(** The body of the outer [forEach]. *)
Definition clusterStep (threshold : float) (markersToShow : list Encounter.t)
    (acc : list Cluster * list Encounter.t * list string)
    (current : Encounter.t)
  : list Cluster * list Encounter.t * list string :=
  let '(clusters, singles, processedIds) := acc in
  if has processedIds (Encounter.id current) then acc
  else
    let '(clusterGroup, processedIds') :=
      fold_left (joinStep threshold current) markersToShow
        ([current], Encounter.id current :: processedIds) in
    if (1 <? List.length clusterGroup)%nat then
      let avgLat :=
        average (fun item => lat (Encounter.location item)) clusterGroup in
      let avgLng :=
        average (fun item => lng (Encounter.location item)) clusterGroup in
      (clusters ++
         [ {| cluster_id := "cluster-" ++ Encounter.id current;
              cluster_lat := avgLat;
              cluster_lng := avgLng;
              count := List.length clusterGroup |} ],
       singles, processedIds')
    else (clusters, singles ++ [current], processedIds').

Definition clusterMarkers (threshold : float)
    (markersToShow : list Encounter.t) : Markers :=
  let '(clusters, singles, _) :=
    fold_left (clusterStep threshold markersToShow) markersToShow
      ([], [], []) in
  {| clusters := clusters; singles := singles |}.

Variable getDistanceInMeters : float -> float -> float -> float -> float.
Variable MATCH_RADIUS : float.

Definition markersToShow (s : State) : list Encounter.t :=
  let own := if mine (mapFilters s) then myEncounters s else [] in
  let others :=
    filter
      (fun e =>
         if status_eqb (Encounter.status e) MATCHED
         then match_ (mapFilters s)
         else if status_eqb (Encounter.status e) LIKED_BY_THEM
         then likedMe (mapFilters s)
         else if status_eqb (Encounter.status e) HIDDEN
         then showHidden s
         else possible (mapFilters s))
      (visibleEncounters getDistanceInMeters MATCH_RADIUS s) in
  own ++ others.

Definition clusteredMarkers (s : State) : Markers :=
  match markersToShow s with
  | [] => {| clusters := []; singles := [] |}
  | (_ :: _) as ms => clusterMarkers (threshold (mapZoom s)) ms
  end.

End Clustering.

(** The distance the clustering rule is specified with: the planar distance
    between the two coordinates, symmetric in latitude and longitude. *)
Definition planarDistance (a b : Location) : float :=
  (let dlat := lat a - lat b in
   let dlng := lng a - lng b in
   JS.Math_sqrt (dlat * dlat + dlng * dlng))%float.

(** ** Sample data: one own post, three candidates, one open chat *)

Module Sample.

Definition me : UserProfile.t :=
  UserProfile.mk "me" "Nico" (Some 30%Z) (Some male) "bio"
    (Some "Hola") ["me-1.jpg"; "me-2.jpg"] None true.

Definition ana : UserProfile.t :=
  UserProfile.mk "u-ana" "Ana" (Some 28%Z) (Some female) "bio"
    None ["ana-1.jpg"] None false.

Definition origin : Location := {| lat := 0; lng := 0 |}.

Definition candidate (id : string) (at_ : Location) (st : EncounterStatus)
  : Encounter.t :=
  Encounter.mk id "u-ana" ana "Cafe" "Nos vimos en el cafe" at_ 1000 None
    st None [Flechazo].

Definition candA : Encounter.t :=
  candidate "A" {| lat := 0; lng := 0.001 |} PENDING.
Definition candB : Encounter.t :=
  candidate "B" {| lat := 0; lng := 1 |} PENDING.
Definition candC : Encounter.t :=
  candidate "C" {| lat := 0; lng := 0.001 |} LIKED_BY_THEM.
Definition candH : Encounter.t :=
  candidate "H" {| lat := 0; lng := 0.001 |} HIDDEN.
Definition candM : Encounter.t :=
  candidate "M" {| lat := 0; lng := 0.001 |} MATCHED.

Definition chatM : Chat.t :=
  Chat.mk "M" "Ana" (Some "ana-1.jpg")
    [ ChatMessage.mk "sys-1" "system" MATCH_TEXT 1000;
      ChatMessage.mk "initial-1" "u-ana" "Hola!" 2000 ]
    0.

(** The application right after start-up, with the map centred. *)
Definition initial : State :=
  {| activeTab := Tab.map;
     currentView := View.main;
     mapCenter := Some origin;
     userProfile := me;
     myEncounters := [];
     nearbyEncounters := [candC; candA; candB; candH];
     chats := [];
     selectedEncounter := None;
     activeChat := None;
     mapZoom := 16;
     newEncounterTitle := "";
     newEncounterDesc := "";
     newEncounterImage := None;
     newEncounterTags := [];
     exploreMode := ExploreMode.grouped;
     showHidden := false;
     mapFilters :=
       {| mine := true; possible := true; likedMe := true; match_ := true |};
     isTyping := false;
     showUnmatchDialog := false;
     showMatchOverlay := {| visible := false; partner := None |};
     notification := None |}.

(** Five own posts published one after the other. *)
Definition full : State :=
  initial |> handleQuickPublish 1 |> handleQuickPublish 2
          |> handleQuickPublish 3 |> handleQuickPublish 4
          |> handleQuickPublish 5
          |> setNewEncounterTitle "Plaza"
          |> setNewEncounterDesc "Cruzamos miradas".

(** A matched candidate whose chat is open in the chat view. *)
Definition chatting : State :=
  initial |> setNearbyEncounters (fun _ => [candM; candA])
          |> setChats (fun _ => [chatM])
          |> setActiveChat (fun _ => Some chatM)
          |> setCurrentView View.chat.

(** The matched candidate selected in the details view, about to be
    unmatched. *)
Definition unmatching : State :=
  chatting |> setSelectedEncounter (Some candM)
           |> setCurrentView View.details.

(** Candidate A after the user connected with it: liked by the user, not
    matched, and still selected. *)
Definition likedA : State := initial |> handleConnect candA "Hola" 5.

(** [handleConnect] on the candidate that liked the user, the chat button
    of the details view pressed while the opener is still awaited, and then
    the opener arriving. *)
Definition raced : State :=
  initial |> handleConnect_sync candC
          |> openChat "C" 10
          |> handleConnect_resume candC "Hola" 20.

(** A message sent from the open chat, the back arrow of the chat header
    pressed before the reply is due, and then the reply landing. *)
Definition sentState : State := fst (sendMessage "hola" 3000 chatting).

Definition pending : PendingReply :=
  {| sent_updatedChat :=
       Chat.with_messages chatM
         (Chat.messages chatM ++ [ChatMessage.mk "msg-3000" "me" "hola" 3000]);
     sent_activeChat := chatM;
     sent_currentView := View.chat |}.

Definition leftChat : State := sentState |> setCurrentView View.main.

Definition replied : State := leftChat |> replyTimeout pending 5500.

(** Two own posts published from the same map centre, and no candidate. *)
Definition twoPosts : State :=
  initial |> setNearbyEncounters (fun _ => [])
          |> handleQuickPublish 1 |> handleQuickPublish 2.

End Sample.

(** ** Events

    Everything that changes the own posts, the catalog, the chat sessions,
    the open chat, the selection or the view, as the events of one
    transition system: the handlers above, the inline click handlers that
    select an encounter, select a chat and change the view, and the two
    continuations. *)

(** The click on a marker or on a card of the explore list. *)
Definition selectEncounter (encounter : Encounter.t) (s : State) : State :=
  s |> setSelectedEncounter (Some encounter) |> setCurrentView View.details.

(** The click on a row of the matches tab. *)
Definition selectChat (chat : Chat.t) (s : State) : State :=
  let updatedChat := Chat.with_unreadCount chat 0 in
  s |> setChats
         (List.map (fun c =>
            if (Chat.encounterId c =? Chat.encounterId chat)%string
            then updatedChat else c))
    |> setActiveChat (fun _ => Some updatedChat)
    |> setCurrentView View.chat.

Inductive Event : Set :=
| EvCreateEncounter (now : Z)
| EvQuickPublish (now : Z)
| EvDeleteEncounter (encounter : Encounter.t)
| EvSelectEncounter (encounter : Encounter.t)
| EvViewProfile (encounterId : string)
| EvConnect (encounter : Encounter.t)
| EvOpenerArrives (encounter : Encounter.t) (initialMsg : string) (now : Z)
| EvReject
| EvUnmatch
| EvOpenChat (encounterId : string) (now : Z)
| EvSelectChat (row : nat)
| EvSendMessage (text : string) (now : Z)
| EvReplyTimeout (p : PendingReply) (now : Z)
| EvSetCurrentView (view : View.t).

Definition applyEvent (ev : Event) (s : State) : State :=
  match ev with
  | EvCreateEncounter now => handleCreateEncounter now s
  | EvQuickPublish now => handleQuickPublish now s
  | EvDeleteEncounter encounter => handleDeleteEncounter encounter s
  | EvSelectEncounter encounter => selectEncounter encounter s
  | EvViewProfile encounterId => handleViewProfile encounterId s
  | EvConnect encounter => handleConnect_sync encounter s
  | EvOpenerArrives encounter initialMsg now =>
      handleConnect_resume encounter initialMsg now s
  | EvReject => handleReject s
  | EvUnmatch => handleUnmatch s
  | EvOpenChat encounterId now => openChat encounterId now s
  | EvSelectChat row =>
      match nth_error (chats s) row with
      | Some chat => selectChat chat s
      | None => s
      end
  | EvSendMessage text now => fst (sendMessage text now s)
  | EvReplyTimeout p now => replyTimeout p now s
  | EvSetCurrentView view => s |> setCurrentView view
  end.

Definition run (evs : list Event) (s : State) : State :=
  fold_left (fun s ev => applyEvent ev s) evs s.

(** A pending reply as [sendMessage] builds them: the captured chats have the
    same id. *)
Definition wellFormedReply (p : PendingReply) : Prop :=
  Chat.encounterId (sent_updatedChat p)
  = Chat.encounterId (sent_activeChat p).

(** The events that do not themselves create a session keyed by [k]: every
    event but [openChat] of [k] and the opener of a connect on [k]
    arriving. *)
Definition createsNoSession (k : string) (ev : Event) : Prop :=
  match ev with
  | EvOpenChat encounterId _ => encounterId <> k
  | EvOpenerArrives encounter _ _ => Encounter.id encounter <> k
  | EvReplyTimeout p _ => wellFormedReply p
  | _ => True
  end.

(** ** Predicates on states *)

(** Every candidate id keys at most one chat session. *)
Definition uniqueSessions (s : State) : Prop :=
  NoDup (List.map Chat.encounterId (chats s)).

(** No chat session is keyed by [k], in the list or open. *)
Definition sessionDestroyed (k : string) (s : State) : Prop :=
  findChat k (chats s) = None
  /\ forall c, activeChat s = Some c -> Chat.encounterId c <> k.

(** ** Explore tab, unread badge, tag toggles and icons *)

Definition tag_eqb (a b : EncounterTag) : bool :=
  match a, b with
  | Flechazo, Flechazo
  | Cruzamos_miradas, Cruzamos_miradas
  | Interes, Interes
  | Curiosidad, Curiosidad
  | Me_atraes, Me_atraes
  | Me_gustas, Me_gustas => true
  | _, _ => false
  end.

(** [filterTags.includes(tag)] *)
Definition includes (tags : list EncounterTag) (tag : EncounterTag) : bool :=
  existsb (tag_eqb tag) tags.

Section Explore.

Variable getDistanceInMeters : float -> float -> float -> float -> float.
Variable MATCH_RADIUS : float.

(** A string cell that is [null] or empty is falsy. *)
Definition truthy (x : option string) : option string :=
  match x with
  | Some str => if falsy str then None else Some str
  | None => None
  end.

(** The [useMemo] of [exploreList]; [exploreSelectedMyId] and [filterTags]
    are the two cells it reads besides those of [State]. *)
Definition exploreList
    (exploreSelectedMyId : option string) (filterTags : list EncounterTag)
    (s : State) : list Encounter.t :=
  match exploreMode s, truthy exploreSelectedMyId with
  | ExploreMode.drilldown, Some myId =>
      match
        find (fun e => (Encounter.id e =? myId)%string) (myEncounters s)
      with
      | None => []
      | Some myPost =>
          filter
            (fun other =>
               let d :=
                 getDistanceInMeters
                   (lat (Encounter.location myPost))
                   (lng (Encounter.location myPost))
                   (lat (Encounter.location other))
                   (lng (Encounter.location other)) in
               (d <=? MATCH_RADIUS)%float)
            (visibleEncounters getDistanceInMeters MATCH_RADIUS s)
      end
  | ExploreMode.list, _ =>
      let list := visibleEncounters getDistanceInMeters MATCH_RADIUS s in
      if (0 <? List.length filterTags)%nat then
        filter
          (fun e => existsb (fun tag => includes filterTags tag)
                      (Encounter.tags e))
          list
      else list
  | _, _ => myEncounters s
  end.

(** The count on the card of the own post [mine] in the grouped view. *)
Definition nearbyCount (mine : Encounter.t) (s : State) : nat :=
  List.length
    (filter
       (fun other =>
          (getDistanceInMeters
             (lat (Encounter.location mine)) (lng (Encounter.location mine))
             (lat (Encounter.location other)) (lng (Encounter.location other))
           <=? MATCH_RADIUS)%float)
       (visibleEncounters getDistanceInMeters MATCH_RADIUS s)).

End Explore.

(** [chats.reduce((acc, chat) => acc + chat.unreadCount, 0)] *)
Definition totalUnreadCount (s : State) : Z :=
  fold_left (fun acc chat => (acc + Chat.unreadCount chat)%Z) (chats s) 0%Z.

(** The update function of [toggleTagSelection] and of [toggleFilterTag]. *)
Definition toggleTag (tag : EncounterTag) (prev : list EncounterTag)
  : list EncounterTag :=
  if includes prev tag
  then filter (fun t => negb (tag_eqb t tag)) prev
  else prev ++ [tag].

Definition toggleTagSelection (tag : EncounterTag) (s : State) : State :=
  s |> setNewEncounterTags (toggleTag tag (newEncounterTags s)).

Inductive MarkerIcon : Set := myIcon | possibleIcon | likedMeIcon | matchIcon.

Definition getMarkerIcon (encounter : Encounter.t) (s : State) : MarkerIcon :=
  if (Encounter.userId encounter =? UserProfile.id (userProfile s))%string
  then myIcon
  else if status_eqb (Encounter.status encounter) MATCHED then matchIcon
  else if status_eqb (Encounter.status encounter) LIKED_BY_THEM
  then likedMeIcon
  else possibleIcon.

(** ** ImageGallery: the two arrows, on the index cell [idx] and
    [images.length] *)

Definition galleryPrev (length prev : Z) : Z :=
  if (0 <? prev)%Z then (prev - 1)%Z else (length - 1)%Z.

Definition galleryNext (length prev : Z) : Z :=
  if (prev <? length - 1)%Z then (prev + 1)%Z else 0%Z.

(** ** EncounterCard.tsx *)

Module EncounterCard.

Inductive Badge : Set := MatchBadge | LikedYouBadge | PendingBadge.

(** The badges rendered in the corner of the card, top to bottom. *)
Definition badges (showStatus : bool) (encounter : Encounter.t)
  : list Badge :=
  let isMatch := status_eqb (Encounter.status encounter) MATCHED in
  let isLikedByMe := status_eqb (Encounter.status encounter) LIKED_BY_ME in
  let isLikedByThem :=
    status_eqb (Encounter.status encounter) LIKED_BY_THEM in
  if showStatus then
    (if isMatch then [MatchBadge] else [])
    ++ (if isLikedByThem then [LikedYouBadge] else [])
    ++ (if isLikedByMe && negb isMatch then [PendingBadge] else [])
  else [].

(** [encounter.image || encounter.userProfile.images[0]] *)
Definition displayImage (encounter : Encounter.t) : option string :=
  match Encounter.image encounter with
  | Some img =>
      if falsy img
      then hd_error (UserProfile.images (Encounter.userProfile encounter))
      else Some img
  | None => hd_error (UserProfile.images (Encounter.userProfile encounter))
  end.

End EncounterCard.

(** ** Measures used in the properties *)

(** The sum [totalUnreadCount] computes, on a list of sessions. *)
Definition unreadSum (cs : list Chat.t) : Z :=
  fold_left (fun acc chat => (acc + Chat.unreadCount chat)%Z) cs 0%Z.

(** A group the inner loop gathers: the post it starts from and the posts it
    adds to it, in the order it adds them. *)
Definition Group : Type := (Encounter.t * list Encounter.t)%type.

Definition members (g : Group) : list Encounter.t := fst g :: snd g.

(** The cluster marker the outer loop pushes for a group. *)
Definition groupMarker (g : Group) : Cluster :=
  {| cluster_id := "cluster-" ++ Encounter.id (fst g);
     cluster_lat :=
       average (fun item => lat (Encounter.location item)) (members g);
     cluster_lng :=
       average (fun item => lng (Encounter.location item)) (members g);
     count := List.length (members g) |}.

(** The posts that single markers and the groups of the cluster markers
    stand for. *)
Definition placed (groups : list Group) (singles : list Encounter.t)
  : list Encounter.t :=
  singles ++ flat_map members groups.

(** What the outer loop keeps true of its three accumulators: the cluster
    markers are those of groups of at least two posts, and the processed ids
    are, each once, the ids of the posts placed so far. *)
Definition arranged (markers : list Encounter.t) (groups : list Group)
    (acc : list Cluster * list Encounter.t * list string) : Prop :=
  let '(cl, sg, ids) := acc in
  cl = List.map groupMarker groups
  /\ Forall (fun g => snd g <> []) groups
  /\ NoDup ids
  /\ Permutation ids (List.map Encounter.id (placed groups sg))
  /\ incl (placed groups sg) markers.

(** A sequence of events in which every opener arrives while no session is
    keyed by its candidate, and every reply is one [sendMessage] built. *)
Fixpoint raceFree (evs : list Event) (s : State) : Prop :=
  match evs with
  | [] => True
  | ev :: evs' =>
      match ev with
      | EvOpenerArrives encounter _ _ =>
          findChat (Encounter.id encounter) (chats s) = None
      | EvReplyTimeout p _ => wellFormedReply p
      | _ => True
      end
      /\ raceFree evs' (applyEvent ev s)
  end.

(** The own post a successful quick publish creates. *)
Definition quickEncounter (now : Z) (center : Location) (s : State)
  : Encounter.t :=
  Encounter.mk
    ("mine-quick-" ++ JS.toString now)
    (UserProfile.id (userProfile s))
    (userProfile s)
    "Miradas Cruzadas"
    (or_default (UserProfile.quickMessage (userProfile s))
       "Me llamaste la atención, me pareciste linda e interesante")
    center
    now
    (hd_error (UserProfile.images (userProfile s)))
    PENDING
    (Some 0%float)
    [Cruzamos_miradas].

(** ** Loading the catalog and the ids of own posts *)

(** The continuation of [generateNearbyEncounters] when the position was
    obtained: the first generated encounter is marked as an inbound like
    before the catalog is stored. *)
Definition handleEncountersLoaded (encounters : list Encounter.t) (s : State)
  : State :=
  let encounters' :=
    match encounters with
    | [] => []
    | first :: rest => Encounter.with_status first LIKED_BY_THEM :: rest
    end in
  s |> setNearbyEncounters (fun _ => encounters').

(** The same continuation on the fallback position: the catalog is stored as
    generated. *)
Definition handleEncountersLoadedFallback
    (encounters : list Encounter.t) (s : State) : State :=
  s |> setNearbyEncounters (fun _ => encounters).

(** An own post whose id is one of the two the publish handlers build from
    the clock reading [n]. *)
Definition publishedAt (n : Z) (e : Encounter.t) : Prop :=
  Encounter.id e = ("mine-" ++ JS.toString n)%string
  \/ Encounter.id e = ("mine-quick-" ++ JS.toString n)%string.

(** An own post whose id was built from a clock reading earlier than
    [bound]. *)
Definition publishedBefore (bound : Z) (e : Encounter.t) : Prop :=
  exists n, (n < bound)%Z /\ publishedAt n e.

(** ** A scenario for the explore tab

    One own post at the origin and the sample catalog, with a stand-in for
    the distance of [./utils/geo]: 111 km per degree of longitude. *)

Module Scenario.

Definition distance (lat1 lng1 lat2 lng2 : float) : float :=
  (abs (lng1 - lng2) * 111000)%float.

Definition radius : float := 150.

Definition published : State := Sample.initial |> handleQuickPublish 1.

Definition ownPost : Encounter.t := quickEncounter 1 Sample.origin Sample.initial.

Definition drilling : State :=
  published |> setExploreMode ExploreMode.drilldown.

Definition listing : State := published |> setExploreMode ExploreMode.list.

End Scenario.

(** ** A late opener and a late reply

    The candidate C liked the user.  The user connects, opens the chat from
    the details view while the opener is still awaited (the recovery
    session), sends a message, goes to C's details from the chat header and
    unmatches; then the opener of the connect arrives, and then the reply of
    the message. *)

Module Race.

Definition connected : State :=
  run [EvConnect Sample.candC; EvOpenChat "C" 10] Sample.initial.

Definition sent : State * option PendingReply :=
  sendMessage "hola" 20 connected.

Definition pending : PendingReply :=
  match snd sent with
  | Some p => p
  | None => Sample.pending
  end.

Definition unmatched : State :=
  run [EvViewProfile "C"; EvUnmatch] (fst sent).

Definition rematched : State :=
  applyEvent (EvOpenerArrives Sample.candC "Hola" 30) unmatched.

Definition replied : State := replyTimeout pending 2520 rematched.

(** The ids of the messages of every session, session by session. *)
Definition messageIds (s : State) : list (string * list string) :=
  List.map
    (fun c => (Chat.encounterId c,
               List.map ChatMessage.id (Chat.messages c)))
    (chats s).

End Race.

(** * Properties *)

(** ** Runtime primitives on sample values *)

Example is_integral_samples :
  List.map JS.is_integral [3; 2; 0.5; -7; 1024; 0.0002]%float
  = [true; true; false; true; true; false].
Proof. reflexivity. Qed.

Example is_odd_integral_samples :
  List.map JS.is_odd_integral [3; 2; 0.5; -7; 1024; 0.0002]%float
  = [true; false; false; true; false; false].
Proof. reflexivity. Qed.

(** [Math.pow(x, 0)] is 1 for every [x], [NaN] included, and
    [Math.pow(0, 2)] is 0: neither reaches the approximated step. *)
Lemma Math_pow_exponent_zero (pow_approx : float -> float -> float)
    (base : float) :
  JS.Math_pow pow_approx base 0 = 1%float.
Proof. reflexivity. Qed.

Lemma Math_pow_zero_squared (pow_approx : float -> float -> float) :
  JS.Math_pow pow_approx 0 2 = 0%float
  /\ JS.Math_pow pow_approx (-0) 2 = 0%float.
Proof. split; reflexivity. Qed.

Example toString_samples :
  JS.toString 3000 = "3000" /\ JS.toString 0 = "0".
Proof. split; reflexivity. Qed.

(** ** Visibility filter *)

Section VisibilityFacts.

Variable getDistanceInMeters : float -> float -> float -> float -> float.
Variable MATCH_RADIUS : float.

Let distanceBetween (a b : Encounter.t) : float :=
  getDistanceInMeters
    (lat (Encounter.location a)) (lng (Encounter.location a))
    (lat (Encounter.location b)) (lng (Encounter.location b)).

Lemma status_eqb_eq (a b : EncounterStatus) :
  status_eqb a b = true <-> a = b.
Proof. destruct a, b; simpl; split; congruence. Qed.

Lemma hidden_gate (showHidden : bool) (st : EncounterStatus) :
  negb showHidden && status_eqb st HIDDEN = false <->
  showHidden = true \/ st <> HIDDEN.
Proof.
  destruct showHidden; simpl.
  - split; auto.
  - destruct (status_eqb st HIDDEN) eqn:E.
    + apply status_eqb_eq in E. split; [discriminate|].
      intros [H|H]; [discriminate | contradiction].
    + split; [|reflexivity]. intros _. right. intros ->. discriminate.
Qed.

(** Equal floats compare [<=]: the boundary value passes the radius test. *)
Lemma float_eqb_leb (x y : float) :
  (x =? y)%float = true -> (x <=? y)%float = true.
Proof.
  rewrite FloatAxioms.eqb_spec, FloatAxioms.leb_spec.
  unfold SFeqb, SFleb. destruct (SFcompare _ _) as [[]|]; congruence.
Qed.

Lemma visibleOf_In
    (myEncounters nearbyEncounters : list Encounter.t) (showHidden : bool)
    (other : Encounter.t) :
  In other
    (visibleOf getDistanceInMeters MATCH_RADIUS
       myEncounters nearbyEncounters showHidden)
  <->
  In other nearbyEncounters
  /\ (showHidden = true \/ Encounter.status other <> HIDDEN)
  /\ exists mine,
       In mine myEncounters
       /\ (distanceBetween mine other <=? MATCH_RADIUS)%float = true.
Proof.
  unfold visibleOf.
  destruct myEncounters as [|m0 rest].
  - simpl. split; [contradiction|].
    intros (_ & _ & mine & [] & _).
  - rewrite filter_In.
    destruct (negb showHidden && status_eqb (Encounter.status other) HIDDEN)
      eqn:G.
    + split; [intros [_ H]; discriminate|].
      intros (_ & H & _). apply hidden_gate in H. congruence.
    + apply hidden_gate in G. rewrite existsb_exists.
      unfold withinRadius, distanceBetween. tauto.
Qed.

(** C1: with no own post nothing is visible; otherwise a candidate of the
    catalog is visible exactly when (the show-hidden flag is on or its status
    is not [HIDDEN]) and some own post is at distance [<= MATCH_RADIUS] from
    it; a candidate whose distance to an own post equals the radius is
    visible. *)
Theorem visibleEncounters_spec
    (myEncounters nearbyEncounters : list Encounter.t) (showHidden : bool) :
  visibleOf getDistanceInMeters MATCH_RADIUS [] nearbyEncounters showHidden
  = []
  /\ (forall other,
        In other
          (visibleOf getDistanceInMeters MATCH_RADIUS
             myEncounters nearbyEncounters showHidden)
        <->
        In other nearbyEncounters
        /\ (showHidden = true \/ Encounter.status other <> HIDDEN)
        /\ exists mine,
             In mine myEncounters
             /\ (distanceBetween mine other <=? MATCH_RADIUS)%float = true)
  /\ (forall mine other,
        In mine myEncounters ->
        In other nearbyEncounters ->
        (showHidden = true \/ Encounter.status other <> HIDDEN) ->
        (distanceBetween mine other =? MATCH_RADIUS)%float = true ->
        In other
          (visibleOf getDistanceInMeters MATCH_RADIUS
             myEncounters nearbyEncounters showHidden)).
Proof.
  split; [reflexivity|]. split.
  - intros other. apply visibleOf_In.
  - intros mine other Hm Ho Hs Hd. apply visibleOf_In.
    split; [assumption|]. split; [assumption|].
    exists mine. split; [assumption|]. now apply float_eqb_leb.
Qed.

End VisibilityFacts.

(** ** Lifecycle *)

Section ReplaceById.

(** [prev.map(e => e.id === k ? f(e) : e)] *)
Variable k : string.
Variable f : Encounter.t -> Encounter.t.

Let replace (e : Encounter.t) : Encounter.t :=
  if (Encounter.id e =? k)%string then f e else e.

Lemma replace_hit (l : list Encounter.t) (e : Encounter.t) :
  In e l -> Encounter.id e = k -> In (f e) (List.map replace l).
Proof.
  intros Hin Hid. apply in_map_iff. exists e. split; [|assumption].
  unfold replace. rewrite Hid, String.eqb_refl. reflexivity.
Qed.

Lemma replace_inv (l : list Encounter.t) (e' : Encounter.t) :
  In e' (List.map replace l) -> Encounter.id e' = k ->
  exists e, In e l /\ Encounter.id e = k /\ e' = f e.
Proof.
  intros Hin Hid. apply in_map_iff in Hin. destruct Hin as (e & He & Hin).
  exists e. unfold replace in He.
  destruct (Encounter.id e =? k)%string eqn:E.
  - apply String.eqb_eq in E. auto.
  - subst e'. rewrite Hid, String.eqb_refl in E. discriminate.
Qed.

Lemma replace_miss (l : list Encounter.t) (e : Encounter.t) :
  In e l -> Encounter.id e <> k -> In e (List.map replace l).
Proof.
  intros Hin Hid. apply in_map_iff. exists e. split; [|assumption].
  unfold replace. apply String.eqb_neq in Hid. now rewrite Hid.
Qed.

End ReplaceById.

Lemma handleConnect_nearbyEncounters encounter initialMsg now s :
  nearbyEncounters (handleConnect encounter initialMsg now s)
  = List.map
      (fun e =>
         if (Encounter.id e =? Encounter.id encounter)%string
         then Encounter.with_status encounter
                (if isInstantMatch encounter then MATCHED else LIKED_BY_ME)
         else e)
      (nearbyEncounters s).
Proof.
  unfold handleConnect, handleConnect_sync, handleConnect_resume.
  destruct (isInstantMatch encounter); reflexivity.
Qed.

Lemma handleConnect_chats encounter initialMsg now s :
  chats (handleConnect encounter initialMsg now s)
  = if isInstantMatch encounter
    then matchChat encounter initialMsg now :: chats s
    else chats s.
Proof.
  unfold handleConnect, handleConnect_sync, handleConnect_resume.
  destruct (isInstantMatch encounter); reflexivity.
Qed.

(** What a connect does to the catalog, whatever the status it starts from:
    every entry with the candidate's id becomes the candidate with status
    [st'], where [st'] is [MATCHED] for an instant match and [LIKED_BY_ME]
    otherwise. *)
Lemma handleConnect_status encounter initialMsg now s :
  let st' := if isInstantMatch encounter then MATCHED else LIKED_BY_ME in
  let s' := handleConnect encounter initialMsg now s in
  (forall e, In e (nearbyEncounters s) ->
             Encounter.id e = Encounter.id encounter ->
             In (Encounter.with_status encounter st') (nearbyEncounters s'))
  /\ (forall e', In e' (nearbyEncounters s') ->
                 Encounter.id e' = Encounter.id encounter ->
                 Encounter.status e' = st')
  /\ selectedEncounter s' = Some (Encounter.with_status encounter st').
Proof.
  intros st' s'. subst s'. rewrite handleConnect_nearbyEncounters.
  fold st'. split; [|split].
  - intros e Hin Hid.
    exact (@replace_hit _ (fun _ => Encounter.with_status encounter st')
             _ _ Hin Hid).
  - intros e' Hin Hid.
    destruct (@replace_inv _ (fun _ => Encounter.with_status encounter st')
                _ _ Hin Hid) as (e & _ & _ & ->).
    reflexivity.
  - unfold handleConnect, handleConnect_sync, handleConnect_resume.
    subst st'. destruct (isInstantMatch encounter); reflexivity.
Qed.

(** C2: connect on a [PENDING] candidate sets its status to [LIKED_BY_ME] and
    leaves the chat sessions as they are; connect on a [LIKED_BY_THEM]
    candidate sets its status to [MATCHED] and adds exactly one chat session,
    keyed by the candidate's id, whose messages are the system match message
    followed by the opener written by the partner, with unread count 1. *)
Theorem handleConnect_spec encounter initialMsg now s :
  let s' := handleConnect encounter initialMsg now s in
  (Encounter.status encounter = PENDING ->
     (forall e, In e (nearbyEncounters s) ->
                Encounter.id e = Encounter.id encounter ->
                In (Encounter.with_status encounter LIKED_BY_ME)
                  (nearbyEncounters s'))
     /\ (forall e', In e' (nearbyEncounters s') ->
                    Encounter.id e' = Encounter.id encounter ->
                    Encounter.status e' = LIKED_BY_ME)
     /\ chats s' = chats s)
  /\ (Encounter.status encounter = LIKED_BY_THEM ->
        (forall e, In e (nearbyEncounters s) ->
                   Encounter.id e = Encounter.id encounter ->
                   In (Encounter.with_status encounter MATCHED)
                     (nearbyEncounters s'))
        /\ (forall e', In e' (nearbyEncounters s') ->
                       Encounter.id e' = Encounter.id encounter ->
                       Encounter.status e' = MATCHED)
        /\ exists c sys opener,
             chats s' = c :: chats s
             /\ Chat.encounterId c = Encounter.id encounter
             /\ Chat.messages c = [sys; opener]
             /\ ChatMessage.senderId sys = "system"
             /\ ChatMessage.text sys = MATCH_TEXT
             /\ ChatMessage.senderId opener = Encounter.userId encounter
             /\ ChatMessage.text opener = initialMsg
             /\ Chat.unreadCount c = 1%Z).
Proof.
  intros s'.
  pose proof (handleConnect_status encounter initialMsg now s) as H.
  pose proof (handleConnect_chats encounter initialMsg now s) as Hc.
  fold s' in H, Hc. unfold isInstantMatch in H, Hc.
  split; intros Hst; rewrite Hst in H, Hc; simpl in H, Hc;
    destruct H as (H1 & H2 & _); (split; [exact H1|split; [exact H2|]]).
  - exact Hc.
  - eexists _, _, _. split; [exact Hc|]. repeat split.
Qed.

Lemma handleConnect_spec_witness :
  (Encounter.status Sample.candA = PENDING
   /\ chats (handleConnect Sample.candA "Hola" 5 Sample.initial)
      = chats Sample.initial)
  /\ (Encounter.status Sample.candC = LIKED_BY_THEM
      /\ exists c, chats (handleConnect Sample.candC "Hola" 5 Sample.initial)
                   = c :: chats Sample.initial).
Proof.
  split.
  - split; [reflexivity|].
    apply (proj1 (handleConnect_spec Sample.candA "Hola" 5 Sample.initial)).
    reflexivity.
  - split; [reflexivity|].
    destruct (proj2 (handleConnect_spec Sample.candC "Hola" 5 Sample.initial)
                eq_refl) as (_ & _ & c & _ & _ & H & _).
    exists c. exact H.
Defined.

Lemma handleReject_selected s selected :
  selectedEncounter s = Some selected ->
  nearbyEncounters (handleReject s)
  = List.map
      (fun e =>
         if (Encounter.id e =? Encounter.id selected)%string
         then Encounter.with_status selected HIDDEN else e)
      (nearbyEncounters s)
  /\ chats (handleReject s) = chats s.
Proof. intros H. unfold handleReject. rewrite H. split; reflexivity. Qed.

Lemma handleUnmatch_selected s selected :
  selectedEncounter s = Some selected ->
  nearbyEncounters (handleUnmatch s)
  = List.map
      (fun e =>
         if (Encounter.id e =? Encounter.id selected)%string
         then Encounter.with_status e PENDING else e)
      (nearbyEncounters s)
  /\ chats (handleUnmatch s)
     = filter
         (fun c => negb (Chat.encounterId c =? Encounter.id selected)%string)
         (chats s)
  /\ activeChat (handleUnmatch s) = None.
Proof.
  intros H. unfold handleUnmatch. rewrite H. repeat split; reflexivity.
Qed.

Lemma findChat_None (k : string) (cs : list Chat.t) :
  findChat k cs = None <-> forall c, In c cs -> Chat.encounterId c <> k.
Proof.
  unfold findChat. split.
  - intros H c Hin Hk.
    apply (find_none _ _ H) in Hin. simpl in Hin.
    rewrite Hk, String.eqb_refl in Hin. discriminate.
  - intros H. destruct (find _ cs) as [c|] eqn:E; [|reflexivity].
    apply find_some in E. destruct E as [Hin Hk].
    apply String.eqb_eq in Hk. now apply H in Hin.
Qed.

Lemma findChat_removed (k : string) (cs : list Chat.t) :
  findChat k (filter (fun c => negb (Chat.encounterId c =? k)%string) cs)
  = None.
Proof.
  apply findChat_None. intros c Hin Hk. apply filter_In in Hin.
  destruct Hin as [_ Hin]. rewrite Hk, String.eqb_refl in Hin. discriminate.
Qed.

(** The status-dependent buttons of the details view. *)
Lemma detailsActions_spec selected :
  (In Connect (detailsActions selected) <->
     Encounter.status selected <> MATCHED
     /\ Encounter.status selected <> LIKED_BY_ME)
  /\ (In Reject (detailsActions selected) <->
        Encounter.status selected <> MATCHED
        /\ Encounter.status selected <> LIKED_BY_ME)
  /\ (In AskUnmatch (detailsActions selected) <->
        Encounter.status selected = MATCHED).
Proof.
  unfold detailsActions.
  destruct (Encounter.status selected); simpl;
    repeat split; intros; intuition congruence.
Qed.

(** C3, as the claim states it, fails: in the sample catalog a connect on the
    hidden candidate, a reject of the candidate that liked the user and an
    unmatch of a candidate that was liked by the user each change the
    catalog. *)
Lemma invalid_transitions_change_state :
  (Encounter.status Sample.candH = HIDDEN
   /\ nearbyEncounters (handleConnect Sample.candH "Hola" 5 Sample.initial)
      <> nearbyEncounters Sample.initial)
  /\ (Encounter.status Sample.candC = LIKED_BY_THEM
      /\ nearbyEncounters
           (handleReject
              (setSelectedEncounter (Some Sample.candC) Sample.initial))
         <> nearbyEncounters Sample.initial)
  /\ (List.map Encounter.status (nearbyEncounters Sample.likedA)
      = [LIKED_BY_THEM; LIKED_BY_ME; PENDING; HIDDEN]
      /\ selectedEncounter Sample.likedA
         = Some (Encounter.with_status Sample.candA LIKED_BY_ME)
      /\ nearbyEncounters (handleUnmatch Sample.likedA)
         <> nearbyEncounters Sample.likedA).
Proof.
  repeat split; try reflexivity; intros H;
    apply (f_equal (List.map Encounter.status)) in H;
    vm_compute in H; discriminate.
Qed.

(** C3, amended: the three handlers carry no status guard.  A connect on a
    [MATCHED] or [HIDDEN] candidate sets its status to [LIKED_BY_ME] and
    leaves the chat sessions as they are; a reject sets the selected
    candidate's status to [HIDDEN] from any status ([MATCHED] and
    [LIKED_BY_THEM] included) and leaves the chat sessions as they are; an
    unmatch sets the selected candidate's status to [PENDING] from any status
    and removes the chat sessions keyed by its id.  The only gate is the
    details view, which renders the connect and reject buttons exactly when
    the status is neither [MATCHED] nor [LIKED_BY_ME], and the unmatch button
    exactly when it is [MATCHED]. *)
Theorem lifecycle_handlers_unguarded :
  (forall encounter initialMsg now s,
      Encounter.status encounter = MATCHED
      \/ Encounter.status encounter = HIDDEN ->
      let s' := handleConnect encounter initialMsg now s in
      (forall e, In e (nearbyEncounters s) ->
                 Encounter.id e = Encounter.id encounter ->
                 In (Encounter.with_status encounter LIKED_BY_ME)
                   (nearbyEncounters s'))
      /\ (forall e', In e' (nearbyEncounters s') ->
                     Encounter.id e' = Encounter.id encounter ->
                     Encounter.status e' = LIKED_BY_ME)
      /\ chats s' = chats s)
  /\ (forall s selected,
        selectedEncounter s = Some selected ->
        let s' := handleReject s in
        (forall e, In e (nearbyEncounters s) ->
                   Encounter.id e = Encounter.id selected ->
                   In (Encounter.with_status selected HIDDEN)
                     (nearbyEncounters s'))
        /\ (forall e', In e' (nearbyEncounters s') ->
                       Encounter.id e' = Encounter.id selected ->
                       Encounter.status e' = HIDDEN)
        /\ chats s' = chats s)
  /\ (forall s selected,
        selectedEncounter s = Some selected ->
        let s' := handleUnmatch s in
        (forall e, In e (nearbyEncounters s) ->
                   Encounter.id e = Encounter.id selected ->
                   In (Encounter.with_status e PENDING)
                     (nearbyEncounters s'))
        /\ (forall e', In e' (nearbyEncounters s') ->
                       Encounter.id e' = Encounter.id selected ->
                       Encounter.status e' = PENDING)
        /\ chats s'
           = filter
               (fun c =>
                  negb (Chat.encounterId c =? Encounter.id selected)%string)
               (chats s))
  /\ (forall selected,
        (In Connect (detailsActions selected) <->
           Encounter.status selected <> MATCHED
           /\ Encounter.status selected <> LIKED_BY_ME)
        /\ (In Reject (detailsActions selected) <->
              Encounter.status selected <> MATCHED
              /\ Encounter.status selected <> LIKED_BY_ME)
        /\ (In AskUnmatch (detailsActions selected) <->
              Encounter.status selected = MATCHED)).
Proof.
  split; [|split; [|split]].
  - intros encounter initialMsg now s Hst s'.
    pose proof (handleConnect_status encounter initialMsg now s) as H.
    pose proof (handleConnect_chats encounter initialMsg now s) as Hc.
    fold s' in H, Hc. unfold isInstantMatch in H, Hc.
    destruct Hst as [Hst|Hst]; rewrite Hst in H, Hc; simpl in H, Hc;
      destruct H as (H1 & H2 & _); auto.
  - intros s selected Hsel s'.
    destruct (handleReject_selected s Hsel) as [Hn Hc]. fold s' in Hn, Hc.
    rewrite Hn. split; [|split; [|exact Hc]].
    + intros e Hin Hid.
      exact (@replace_hit _ (fun _ => Encounter.with_status selected HIDDEN)
               _ _ Hin Hid).
    + intros e' Hin Hid.
      destruct (@replace_inv _
                  (fun _ => Encounter.with_status selected HIDDEN)
                  _ _ Hin Hid) as (e & _ & _ & ->).
      reflexivity.
  - intros s selected Hsel s'.
    destruct (handleUnmatch_selected s Hsel) as (Hn & Hc & _).
    fold s' in Hn, Hc. rewrite Hn. split; [|split; [|exact Hc]].
    + intros e Hin Hid.
      exact (@replace_hit _ (fun e => Encounter.with_status e PENDING)
               _ _ Hin Hid).
    + intros e' Hin Hid.
      destruct (@replace_inv _ (fun e => Encounter.with_status e PENDING)
                  _ _ Hin Hid) as (e & _ & _ & ->).
      reflexivity.
  - exact detailsActions_spec.
Qed.

Lemma lifecycle_handlers_unguarded_witness :
  chats (handleConnect Sample.candH "Hola" 5 Sample.initial)
  = chats Sample.initial
  /\ chats (handleReject
              (setSelectedEncounter (Some Sample.candC) Sample.initial))
     = chats Sample.initial
  /\ (forall e',
        In e' (nearbyEncounters
                 (handleUnmatch
                    (setSelectedEncounter (Some Sample.candA)
                       Sample.initial))) ->
        Encounter.id e' = "A" -> Encounter.status e' = PENDING).
Proof.
  destruct lifecycle_handlers_unguarded as (Hc & Hr & Hu & _).
  split; [|split].
  - apply (Hc Sample.candH "Hola" 5%Z Sample.initial). right. reflexivity.
  - apply (Hr (setSelectedEncounter (Some Sample.candC) Sample.initial)
              Sample.candC eq_refl).
  - apply (Hu (setSelectedEncounter (Some Sample.candA) Sample.initial)
              Sample.candA eq_refl).
Defined.

(** C8: unmatch of a [MATCHED] candidate sets its status to [PENDING] (not
    [HIDDEN]) and removes the chat session keyed by its id: a lookup of that
    id in the chat sessions afterwards finds none. *)
Theorem handleUnmatch_spec s selected e :
  selectedEncounter s = Some selected ->
  In e (nearbyEncounters s) ->
  Encounter.id e = Encounter.id selected ->
  Encounter.status e = MATCHED ->
  let s' := handleUnmatch s in
  In (Encounter.with_status e PENDING) (nearbyEncounters s')
  /\ (forall e', In e' (nearbyEncounters s') ->
                 Encounter.id e' = Encounter.id e ->
                 Encounter.status e' = PENDING
                 /\ Encounter.status e' <> HIDDEN)
  /\ findChat (Encounter.id e) (chats s') = None
  /\ (forall c, In c (chats s') -> Chat.encounterId c <> Encounter.id e).
Proof.
  intros Hsel Hin Hid _ s'.
  destruct (handleUnmatch_selected s Hsel) as (Hn & Hc & _).
  fold s' in Hn, Hc. rewrite Hn, Hc, Hid.
  assert (Hnone := findChat_removed (Encounter.id selected) (chats s)).
  split; [|split; [|split]].
  - exact (@replace_hit _ (fun e => Encounter.with_status e PENDING)
             _ _ Hin Hid).
  - intros e' Hin' Hid'.
    destruct (@replace_inv _ (fun e => Encounter.with_status e PENDING)
                _ _ Hin' Hid') as (e0 & _ & _ & ->).
    simpl. split; [reflexivity|discriminate].
  - exact Hnone.
  - now apply findChat_None.
Qed.

Lemma handleUnmatch_spec_witness :
  findChat "M" (chats Sample.unmatching) = Some Sample.chatM
  /\ findChat "M" (chats (handleUnmatch Sample.unmatching)) = None.
Proof.
  split; [reflexivity|].
  apply (handleUnmatch_spec Sample.unmatching (selected := Sample.candM)
           Sample.candM);
    [reflexivity | simpl; auto | reflexivity | reflexivity].
Defined.

(** ** Publishing and deleting own posts *)

Lemma falsy_false (str : string) : str <> "" -> falsy str = false.
Proof. intros H. unfold falsy. now apply String.eqb_neq. Qed.

(** C9: with five own posts, a publish (detailed, with the map centred and
    title and description filled in, or quick, with the map centred) fails
    with the capacity error and changes nothing else; the own posts are the
    same five in every case. *)
Theorem publish_at_capacity now s :
  List.length (myEncounters s) = 5 ->
  myEncounters (handleCreateEncounter now s) = myEncounters s
  /\ myEncounters (handleQuickPublish now s) = myEncounters s
  /\ (mapCenter s <> None ->
      newEncounterTitle s <> "" ->
      newEncounterDesc s <> "" ->
      handleCreateEncounter now s = setNotification (Some capacityError) s
      /\ notification (handleCreateEncounter now s) = Some capacityError)
  /\ (mapCenter s <> None ->
      handleQuickPublish now s = setNotification (Some capacityError) s
      /\ notification (handleQuickPublish now s) = Some capacityError).
Proof.
  intros Hlen. unfold handleCreateEncounter, handleQuickPublish.
  rewrite Hlen. change (5 <=? 5)%nat with true. cbv iota.
  destruct (mapCenter s) as [center|].
  - split; [|split; [|split]].
    + destruct (falsy (newEncounterTitle s) || falsy (newEncounterDesc s));
        reflexivity.
    + reflexivity.
    + intros _ Ht Hd. rewrite (falsy_false Ht), (falsy_false Hd).
      split; reflexivity.
    + intros _. split; reflexivity.
  - split; [reflexivity|]. split; [reflexivity|].
    split; intros H; now destruct H.
Qed.

Lemma publish_at_capacity_witness :
  List.length (myEncounters Sample.full) = 5
  /\ myEncounters (handleCreateEncounter 6 Sample.full)
     = myEncounters Sample.full
  /\ notification (handleCreateEncounter 6 Sample.full) = Some capacityError
  /\ notification (handleQuickPublish 6 Sample.full) = Some capacityError.
Proof.
  split; [reflexivity|].
  destruct (publish_at_capacity 6 Sample.full eq_refl)
    as (Hc & _ & Hd & Hq).
  split; [exact Hc|]. split.
  - apply Hd; discriminate.
  - apply Hq; discriminate.
Defined.

(** C10: publishing an own post (detailed or quick) and deleting one change
    neither the candidate catalog (so no candidate's status) nor the chat
    sessions, nor the selected encounter or the open chat. *)
Theorem own_posts_frame now encounter s :
  (nearbyEncounters (handleCreateEncounter now s) = nearbyEncounters s
   /\ chats (handleCreateEncounter now s) = chats s
   /\ activeChat (handleCreateEncounter now s) = activeChat s
   /\ selectedEncounter (handleCreateEncounter now s) = selectedEncounter s)
  /\ (nearbyEncounters (handleQuickPublish now s) = nearbyEncounters s
      /\ chats (handleQuickPublish now s) = chats s
      /\ activeChat (handleQuickPublish now s) = activeChat s
      /\ selectedEncounter (handleQuickPublish now s) = selectedEncounter s)
  /\ (nearbyEncounters (handleDeleteEncounter encounter s)
      = nearbyEncounters s
      /\ chats (handleDeleteEncounter encounter s) = chats s
      /\ activeChat (handleDeleteEncounter encounter s) = activeChat s
      /\ selectedEncounter (handleDeleteEncounter encounter s)
         = selectedEncounter s
      /\ myEncounters (handleDeleteEncounter encounter s)
         = filter
             (fun e =>
                negb (Encounter.id e =? Encounter.id encounter)%string)
             (myEncounters s)).
Proof.
  unfold handleCreateEncounter, handleQuickPublish, handleDeleteEncounter.
  split; [|split].
  - destruct (mapCenter s); [|repeat split].
    destruct (falsy (newEncounterTitle s) || falsy (newEncounterDesc s));
      [repeat split|].
    destruct (5 <=? List.length (myEncounters s))%nat; repeat split.
  - destruct (mapCenter s); [|repeat split].
    destruct (5 <=? List.length (myEncounters s))%nat; repeat split.
  - repeat split.
Qed.

(** ** Chat sessions *)

Section ReplaceChat.

(** [prev.map(c => c.encounterId === k ? g(c) : c)] *)
Variable k : string.
Variable g : Chat.t -> Chat.t.

Let replace (c : Chat.t) : Chat.t :=
  if (Chat.encounterId c =? k)%string then g c else c.

Lemma replaceChat_ids (cs : list Chat.t) :
  (forall c, Chat.encounterId c = k -> Chat.encounterId (g c) = k) ->
  List.map Chat.encounterId (List.map replace cs)
  = List.map Chat.encounterId cs.
Proof.
  intros Hg. rewrite map_map. apply map_ext. intros c. unfold replace.
  destruct (Chat.encounterId c =? k)%string eqn:E; [|reflexivity].
  apply String.eqb_eq in E. now rewrite (Hg c E).
Qed.

Lemma replaceChat_absent (cs : list Chat.t) :
  findChat k cs = None -> List.map replace cs = cs.
Proof.
  intros H. rewrite <- (map_id cs) at 2. apply map_ext_in. intros c Hin.
  unfold replace. rewrite findChat_None in H. specialize (H c Hin).
  apply String.eqb_neq in H. now rewrite H.
Qed.

Lemma replaceChat_In (cs : list Chat.t) (c' : Chat.t) :
  In c' (List.map replace cs) -> Chat.encounterId c' = k ->
  (forall c, Chat.encounterId c = k -> Chat.encounterId (g c) = k) ->
  exists c, In c cs /\ Chat.encounterId c = k /\ c' = g c.
Proof.
  intros Hin Hk Hg. apply in_map_iff in Hin. destruct Hin as (c & Hc & Hin).
  exists c. unfold replace in Hc.
  destruct (Chat.encounterId c =? k)%string eqn:E.
  - apply String.eqb_eq in E. auto.
  - subst c'. rewrite Hk, String.eqb_refl in E. discriminate.
Qed.

End ReplaceChat.

Lemma sendMessage_inv text now s s1 p :
  sendMessage text now s = (s1, Some p) ->
  activeChat s = Some (sent_activeChat p)
  /\ sent_currentView p = currentView s
  /\ sent_updatedChat p
     = Chat.with_messages (sent_activeChat p)
         (Chat.messages (sent_activeChat p)
          ++ [ChatMessage.mk ("msg-" ++ JS.toString now)
                (UserProfile.id (userProfile s)) text now])
  /\ chats s1
     = List.map
         (fun c =>
            if (Chat.encounterId c
                =? Chat.encounterId (sent_activeChat p))%string
            then sent_updatedChat p else c)
         (chats s).
Proof.
  unfold sendMessage. destruct (activeChat s) as [active|]; [|discriminate].
  intros H. injection H as <- <-. repeat split.
Qed.

Lemma replyChat_encounterId p now :
  Chat.encounterId (replyChat p now) = Chat.encounterId (sent_updatedChat p).
Proof. reflexivity. Qed.

(** The callback replaces every session keyed by the captured chat's id: by
    [replyChat] when the message was sent from the chat view, and by
    [replyChat] with the session's unread count plus one otherwise. *)
Lemma replyTimeout_chats p now t :
  chats (replyTimeout p now t)
  = List.map
      (fun c =>
         if (Chat.encounterId c
             =? Chat.encounterId (sent_activeChat p))%string
         then
           if View.eqb (sent_currentView p) View.chat
           then replyChat p now
           else Chat.with_unreadCount (replyChat p now)
                  (Chat.unreadCount c + 1)
         else c)
      (chats t).
Proof.
  unfold replyTimeout.
  transitivity
    (List.map
       (fun c =>
          if (Chat.encounterId c
              =? Chat.encounterId (sent_activeChat p))%string
          then
            if View.eqb (sent_currentView p) View.chat
               && (Chat.encounterId (sent_activeChat p)
                   =? Chat.encounterId c)%string
            then replyChat p now
            else Chat.with_unreadCount (replyChat p now)
                   (Chat.unreadCount c + 1)
          else c)
       (chats t)).
  - destruct (negb (View.eqb (sent_currentView p) View.chat)); reflexivity.
  - apply map_ext. intros c.
    destruct (Chat.encounterId c
              =? Chat.encounterId (sent_activeChat p))%string eqn:E;
      [|reflexivity].
    rewrite String.eqb_sym, E, andb_true_r. reflexivity.
Qed.

Lemma replyTimeout_activeChat p now t :
  activeChat (replyTimeout p now t)
  = match activeChat t with
    | Some c =>
        if (Chat.encounterId c
            =? Chat.encounterId (sent_activeChat p))%string
        then Some (replyChat p now) else Some c
    | None => None
    end.
Proof.
  unfold replyTimeout.
  destruct (negb (View.eqb (sent_currentView p) View.chat));
    destruct (activeChat t) eqn:E; simpl; rewrite E; reflexivity.
Qed.

Lemma replyTimeout_frame p now t :
  nearbyEncounters (replyTimeout p now t) = nearbyEncounters t
  /\ myEncounters (replyTimeout p now t) = myEncounters t
  /\ selectedEncounter (replyTimeout p now t) = selectedEncounter t
  /\ currentView (replyTimeout p now t) = currentView t.
Proof.
  unfold replyTimeout.
  destruct (negb (View.eqb (sent_currentView p) View.chat)); repeat split.
Qed.

Lemma replyTimeout_notification p now t :
  notification (replyTimeout p now t)
  = if View.eqb (sent_currentView p) View.chat
    then notification t
    else Some (Notification.mk
                 ("Nuevo mensaje de " ++ Chat.partnerName (sent_activeChat p))
                 Notification.success).
Proof.
  unfold replyTimeout.
  destruct (View.eqb (sent_currentView p) View.chat); reflexivity.
Qed.

Lemma handleUnmatch_destroys u selected :
  selectedEncounter u = Some selected ->
  sessionDestroyed (Encounter.id selected) (handleUnmatch u).
Proof.
  intros Hsel. destruct (handleUnmatch_selected u Hsel) as (_ & Hc & Ha).
  split.
  - rewrite Hc. apply findChat_removed.
  - intros c Hact. rewrite Ha in Hact. discriminate.
Qed.

Lemma find_encounter_id (k : string) (l : list Encounter.t) enc :
  find (fun e => (Encounter.id e =? k)%string) l = Some enc ->
  Encounter.id enc = k.
Proof. intros H. apply find_some in H. now apply String.eqb_eq. Qed.

Lemma findChat_Some (k : string) (cs : list Chat.t) c :
  findChat k cs = Some c -> In c cs /\ Chat.encounterId c = k.
Proof.
  intros H. apply find_some in H. destruct H as [Hin H].
  now apply String.eqb_eq in H.
Qed.

Lemma findChat_None_ids (k : string) (cs : list Chat.t) :
  findChat k cs = None <-> ~ In k (List.map Chat.encounterId cs).
Proof.
  rewrite findChat_None, in_map_iff. split.
  - intros H (c & Hk & Hin). exact (H c Hin Hk).
  - intros H c Hin Hk. apply H. now exists c.
Qed.

(** *** The session stays destroyed *)

Section StaysDestroyed.

Variable k : string.

Lemma destroyed_replace (g : Chat.t -> Chat.t) (k' : string) s s' :
  sessionDestroyed k s ->
  (forall c, Chat.encounterId c = k' -> Chat.encounterId (g c) = k') ->
  chats s'
  = List.map
      (fun c => if (Chat.encounterId c =? k')%string then g c else c)
      (chats s) ->
  (forall c, activeChat s' = Some c -> Chat.encounterId c <> k) ->
  sessionDestroyed k s'.
Proof.
  intros [Hnone _] Hg Hchats Hact. split; [|exact Hact].
  rewrite Hchats. apply findChat_None_ids. rewrite replaceChat_ids by exact Hg.
  now apply findChat_None_ids.
Qed.

Lemma openChat_stays_destroyed encounterId now s :
  encounterId <> k ->
  sessionDestroyed k s -> sessionDestroyed k (openChat encounterId now s).
Proof.
  intros Hk [Hnone Hact]. unfold openChat.
  destruct (findChat encounterId (chats s)) as [c|] eqn:Hfind.
  - apply findChat_Some in Hfind. destruct Hfind as [_ Hc]. split; simpl.
    + apply findChat_None_ids.
      rewrite replaceChat_ids by (intros _ _; exact Hc).
      now apply findChat_None_ids.
    + intros c' H. injection H as <-. simpl. congruence.
  - destruct (find _ (nearbyEncounters s)) as [enc|] eqn:Henc.
    + apply find_encounter_id in Henc. split; simpl.
      * apply findChat_None_ids.
        rewrite replaceChat_ids by (intros _ _; exact Henc).
        rewrite map_app, in_app_iff. simpl.
        apply findChat_None_ids in Hnone. intros [H|[H|[]]]; congruence.
      * intros c' H. injection H as <-. simpl. congruence.
    + now split.
Qed.

Lemma selectChat_stays_destroyed chat s :
  In chat (chats s) ->
  sessionDestroyed k s -> sessionDestroyed k (selectChat chat s).
Proof.
  intros Hin Hd.
  assert (Hk : Chat.encounterId chat <> k).
  { destruct Hd as [Hnone _]. rewrite findChat_None in Hnone. auto. }
  apply (@destroyed_replace (fun _ => Chat.with_unreadCount chat 0)
           (Chat.encounterId chat) s); auto.
  intros c H. injection H as <-. exact Hk.
Qed.

Lemma sendMessage_stays_destroyed text now s :
  sessionDestroyed k s -> sessionDestroyed k (fst (sendMessage text now s)).
Proof.
  intros Hd. unfold sendMessage.
  destruct (activeChat s) as [active|] eqn:Hactive; [|exact Hd].
  assert (Hk : Chat.encounterId active <> k) by (destruct Hd; auto).
  simpl.
  apply (@destroyed_replace
           (fun _ => Chat.with_messages active
                       (Chat.messages active
                        ++ [ChatMessage.mk ("msg-" ++ JS.toString now)
                              (UserProfile.id (userProfile s)) text now]))
           (Chat.encounterId active) s); auto.
  intros c H. injection H as <-. exact Hk.
Qed.

Lemma replyTimeout_stays_destroyed p now s :
  wellFormedReply p ->
  sessionDestroyed k s -> sessionDestroyed k (replyTimeout p now s).
Proof.
  intros Hwf Hd.
  apply (@destroyed_replace
           (fun c =>
              if View.eqb (sent_currentView p) View.chat
              then replyChat p now
              else Chat.with_unreadCount (replyChat p now)
                     (Chat.unreadCount c + 1))
           (Chat.encounterId (sent_activeChat p)) s).
  - exact Hd.
  - intros c _. destruct (View.eqb _ _); exact Hwf.
  - apply replyTimeout_chats.
  - intros c. rewrite replyTimeout_activeChat.
    destruct Hd as [_ Hact].
    destruct (activeChat s) as [c0|]; [|discriminate].
    specialize (Hact c0 eq_refl).
    destruct (Chat.encounterId c0
              =? Chat.encounterId (sent_activeChat p))%string eqn:E;
      intros H; injection H as <-; [|exact Hact].
    apply String.eqb_eq in E. rewrite replyChat_encounterId, Hwf, <- E.
    exact Hact.
Qed.

Lemma handleUnmatch_stays_destroyed s :
  sessionDestroyed k s -> sessionDestroyed k (handleUnmatch s).
Proof.
  intros Hd. unfold handleUnmatch.
  destruct (selectedEncounter s) as [selected|]; [|exact Hd].
  destruct Hd as [Hnone _]. split; simpl; [|discriminate].
  rewrite findChat_None in *. intros c Hin. apply filter_In in Hin.
  now apply Hnone.
Qed.

Lemma applyEvent_stays_destroyed ev s :
  createsNoSession k ev ->
  sessionDestroyed k s -> sessionDestroyed k (applyEvent ev s).
Proof.
  destruct ev; simpl; intros Hev Hd.
  - unfold handleCreateEncounter.
    destruct (mapCenter s); [|exact Hd].
    destruct (falsy _ || falsy _); [exact Hd|].
    destruct (5 <=? _)%nat; exact Hd.
  - unfold handleQuickPublish.
    destruct (mapCenter s); [|exact Hd].
    destruct (5 <=? _)%nat; exact Hd.
  - exact Hd.
  - exact Hd.
  - unfold handleViewProfile. destruct (find _ _); exact Hd.
  - unfold handleConnect_sync. destruct (isInstantMatch encounter); exact Hd.
  - destruct Hd as [Hnone Hact]. split; [|exact Hact].
    unfold findChat. simpl. apply String.eqb_neq in Hev. rewrite Hev.
    exact Hnone.
  - unfold handleReject. destruct (selectedEncounter s); exact Hd.
  - now apply handleUnmatch_stays_destroyed.
  - now apply openChat_stays_destroyed.
  - destruct (nth_error (chats s) row) as [chat|] eqn:E; [|exact Hd].
    apply nth_error_In in E. now apply selectChat_stays_destroyed.
  - now apply sendMessage_stays_destroyed.
  - now apply replyTimeout_stays_destroyed.
  - exact Hd.
Qed.

Lemma run_stays_destroyed evs s :
  Forall (createsNoSession k) evs ->
  sessionDestroyed k s -> sessionDestroyed k (run evs s).
Proof.
  intros Hevs. revert s. unfold run.
  induction Hevs as [|ev evs Hev _ IH]; intros s Hd; simpl; [exact Hd|].
  apply IH. now apply applyEvent_stays_destroyed.
Qed.

End StaysDestroyed.

(** In a state with no session keyed by the captured chat's id, the callback
    is a no-op on the chat sessions, the open chat and the catalog. *)
Lemma replyTimeout_dropped p now t :
  sessionDestroyed (Chat.encounterId (sent_activeChat p)) t ->
  chats (replyTimeout p now t) = chats t
  /\ activeChat (replyTimeout p now t) = activeChat t
  /\ nearbyEncounters (replyTimeout p now t) = nearbyEncounters t.
Proof.
  intros [Hnone Hact]. split; [|split].
  - rewrite replyTimeout_chats. now apply replaceChat_absent.
  - rewrite replyTimeout_activeChat.
    destruct (activeChat t) as [c|]; [|reflexivity].
    specialize (Hact c eq_refl). apply String.eqb_neq in Hact.
    now rewrite Hact.
  - apply replyTimeout_frame.
Qed.

(** Where the reply is dropped.  After the unmatch, and after any further
    events that do not themselves create a session for the candidate (every
    event but an [openChat] of that id and the opener of a connect on it
    arriving), no session is keyed by the candidate's id, in the list or
    open; the callback then changes neither the chat sessions (none is
    created, no message is appended), nor the open chat, nor the catalog,
    and shows no error: it shows nothing at all when the message was sent
    from the chat view, the only view that has the message form. *)
Lemma late_reply_discarded text now s s1 p u selected evs now' :
  sendMessage text now s = (s1, Some p) ->
  selectedEncounter u = Some selected ->
  Encounter.id selected = Chat.encounterId (sent_activeChat p) ->
  Forall (createsNoSession (Encounter.id selected)) evs ->
  let t := run evs (handleUnmatch u) in
  let t' := replyTimeout p now' t in
  findChat (Encounter.id selected) (chats t) = None
  /\ chats t' = chats t
  /\ activeChat t' = activeChat t
  /\ nearbyEncounters t' = nearbyEncounters t
  /\ findChat (Encounter.id selected) (chats t') = None
  /\ (forall n, notification t' = Some n ->
                Notification.type n <> Notification.error
                \/ notification t = Some n)
  /\ (currentView s = View.chat -> notification t' = notification t).
Proof.
  intros Hsend Hsel Hid Hevs t t'. apply sendMessage_inv in Hsend.
  destruct Hsend as (_ & Hview & _ & _).
  assert (Hd : sessionDestroyed (Encounter.id selected) t).
  { apply run_stays_destroyed; [exact Hevs|].
    now apply handleUnmatch_destroys. }
  assert (Hnone := proj1 Hd). rewrite Hid in Hd.
  destruct (@replyTimeout_dropped p now' t Hd) as (Hchats & Hactive & Hnear).
  fold t' in Hchats, Hactive, Hnear.
  split; [exact Hnone|]. split; [exact Hchats|]. split; [exact Hactive|].
  split; [exact Hnear|]. split; [now rewrite Hchats|]. split.
  - intros n. unfold t'. rewrite replyTimeout_notification.
    destruct (View.eqb (sent_currentView p) View.chat).
    + auto.
    + intros H. injection H as <-. left. discriminate.
  - intros Hchat. unfold t'.
    rewrite replyTimeout_notification, Hview, Hchat. reflexivity.
Qed.

Lemma late_reply_discarded_witness :
  sendMessage "hola" 3000 Sample.chatting
  = (Sample.sentState, Some Sample.pending)
  /\ chats
       (replyTimeout Sample.pending 5500
          (run [EvSetCurrentView View.create; EvQuickPublish 4000]
             (handleUnmatch Sample.unmatching)))
     = chats
         (run [EvSetCurrentView View.create; EvQuickPublish 4000]
            (handleUnmatch Sample.unmatching)).
Proof.
  assert (E : sendMessage "hola" 3000 Sample.chatting
              = (Sample.sentState, Some Sample.pending)) by reflexivity.
  split; [exact E|].
  apply (@late_reply_discarded "hola" 3000 Sample.chatting Sample.sentState
           Sample.pending Sample.unmatching Sample.candM
           [EvSetCurrentView View.create; EvQuickPublish 4000] 5500 E
           eq_refl eq_refl).
  repeat constructor.
Defined.

(** C6 at the failing input: the session of C is destroyed by the unmatch
    while the reply to the user's message is pending and C is back to
    [PENDING]; the opener of the connect arrives and puts a session keyed by
    C in the list; when the reply then fires it is not dropped: it replaces
    that session by the destroyed one with the reply appended. *)
Theorem late_reply_overwrites_session :
  Race.sent = (fst Race.sent, Some Race.pending)
  /\ Race.messageIds (fst Race.sent) = [("C", ["sys-recovery"; "msg-20"])]
  /\ sessionDestroyed "C" Race.unmatched
  /\ List.map (fun e => (Encounter.id e, Encounter.status e))
       (nearbyEncounters Race.replied)
     = [("C", PENDING); ("A", PENDING); ("B", PENDING); ("H", HIDDEN)]
  /\ Race.messageIds Race.rematched = [("C", ["sys-1"; "initial-1"])]
  /\ Race.messageIds Race.replied
     = [("C", ["sys-recovery"; "msg-20"; "reply-2520"])]
  /\ chats Race.replied <> chats Race.rematched.
Proof.
  split; [reflexivity|]. split; [reflexivity|]. split.
  { split; [reflexivity|]. intros c H. discriminate H. }
  split; [reflexivity|]. split; [reflexivity|]. split; [reflexivity|].
  intros H.
  apply (f_equal (List.map (fun c => List.length (Chat.messages c)))) in H.
  vm_compute in H. discriminate H.
Qed.

(** Whether the reply counts as read is decided by the view the message was
    sent from, not by the view the application shows when the reply lands:
    sent from the chat view, the session ends up with the unread count it had
    when the message was sent and with two more messages, in every state the
    callback runs in. *)
Lemma reply_sent_from_chat_view text now s s1 p now' t c' :
  sendMessage text now s = (s1, Some p) ->
  currentView s = View.chat ->
  In c' (chats (replyTimeout p now' t)) ->
  Chat.encounterId c' = Chat.encounterId (sent_activeChat p) ->
  Chat.unreadCount c' = Chat.unreadCount (sent_activeChat p)
  /\ exists msg reply,
       Chat.messages c' = Chat.messages (sent_activeChat p) ++ [msg; reply]
       /\ ChatMessage.text msg = text
       /\ ChatMessage.senderId msg = UserProfile.id (userProfile s)
       /\ ChatMessage.senderId reply = "partner".
Proof.
  intros Hsend Hview Hin Hk. apply sendMessage_inv in Hsend.
  destruct Hsend as (_ & Hcv & Hup & _).
  rewrite replyTimeout_chats, Hcv, Hview in Hin. simpl in Hin.
  destruct (@replaceChat_In _ (fun _ => replyChat p now') _ _ Hin Hk)
    as (c & _ & _ & ->).
  { intros _ _. rewrite replyChat_encounterId, Hup. reflexivity. }
  unfold replyChat. rewrite Hup. simpl. split; [reflexivity|].
  eexists _, _. rewrite <- app_assoc. simpl. repeat split.
Qed.

(** Sent from any other view, every session with that id gets its own unread
    count plus one. *)
Lemma reply_sent_from_other_view text now s s1 p now' t :
  sendMessage text now s = (s1, Some p) ->
  currentView s <> View.chat ->
  chats (replyTimeout p now' t)
  = List.map
      (fun c =>
         if (Chat.encounterId c
             =? Chat.encounterId (sent_activeChat p))%string
         then Chat.with_unreadCount (replyChat p now')
                (Chat.unreadCount c + 1)
         else c)
      (chats t).
Proof.
  intros Hsend Hview. apply sendMessage_inv in Hsend.
  destruct Hsend as (_ & Hcv & _ & _).
  rewrite replyTimeout_chats, Hcv.
  destruct (currentView s); try reflexivity. now destruct Hview.
Qed.

(** C7 at the failing input: the chat with M is open and read, a message is
    sent, the user goes back to the main view, and the reply lands while the
    chat is no longer shown; the session has the two new messages and its
    unread count is still 0. *)
Theorem reply_after_leaving_chat_not_counted :
  sendMessage "hola" 3000 Sample.chatting
  = (Sample.sentState, Some Sample.pending)
  /\ Sample.replied
     = run [EvSendMessage "hola" 3000; EvSetCurrentView View.main;
            EvReplyTimeout Sample.pending 5500] Sample.chatting
  /\ currentView Sample.chatting = View.chat
  /\ currentView Sample.leftChat = View.main
  /\ List.map Chat.unreadCount (chats Sample.leftChat) = [0%Z]
  /\ List.map Chat.unreadCount (chats Sample.replied) = [0%Z]
  /\ List.map (fun c => List.length (Chat.messages c)) (chats Sample.chatting)
     = [2]
  /\ List.map (fun c => List.length (Chat.messages c)) (chats Sample.replied)
     = [4].
Proof. repeat split. Qed.

(** *** At most one session per candidate *)

Lemma NoDup_map_filter (A B : Type) (f : A -> B) (keep : A -> bool)
    (l : list A) :
  NoDup (List.map f l) -> NoDup (List.map f (filter keep l)).
Proof.
  induction l as [|a l IH]; simpl; intros H; [constructor|].
  inversion H as [|? ? Hnotin Hnodup]; subst.
  destruct (keep a); simpl; [|auto].
  constructor; [|auto].
  intros Hin. apply Hnotin. apply in_map_iff in Hin.
  destruct Hin as (x & Hx & Hin). apply filter_In in Hin.
  apply in_map_iff. exists x. tauto.
Qed.

Lemma handleReject_unique s :
  uniqueSessions s -> uniqueSessions (handleReject s).
Proof.
  unfold uniqueSessions, handleReject.
  destruct (selectedEncounter s); auto.
Qed.

Lemma handleUnmatch_unique s :
  uniqueSessions s -> uniqueSessions (handleUnmatch s).
Proof.
  unfold uniqueSessions, handleUnmatch.
  destruct (selectedEncounter s); [|auto].
  simpl. apply NoDup_map_filter.
Qed.

(** [openChat] looks for a session before it creates one. *)
Lemma openChat_unique encounterId now s :
  uniqueSessions s -> uniqueSessions (openChat encounterId now s).
Proof.
  unfold uniqueSessions, openChat. intros Huniq.
  destruct (findChat encounterId (chats s)) as [c|] eqn:Hfind.
  - apply findChat_Some in Hfind. destruct Hfind as [_ Hk].
    simpl. rewrite replaceChat_ids; [assumption|]. intros _ _. exact Hk.
  - destruct (find _ (nearbyEncounters s)) as [enc|] eqn:Henc;
      [|assumption].
    apply find_encounter_id in Henc. simpl.
    rewrite replaceChat_ids; [|intros _ _; exact Henc].
    rewrite map_app. simpl. rewrite Henc.
    apply NoDup_app; [assumption|repeat constructor; intros []|].
    intros k Hin [<-|[]]. apply in_map_iff in Hin.
    destruct Hin as (c & Hk & Hin).
    rewrite findChat_None in Hfind. now apply (Hfind c Hin).
Qed.

Lemma sendMessage_unique text now s :
  uniqueSessions s -> uniqueSessions (fst (sendMessage text now s)).
Proof.
  unfold uniqueSessions, sendMessage. intros Huniq.
  destruct (activeChat s) as [active|]; [|assumption].
  simpl. rewrite replaceChat_ids; [assumption|]. reflexivity.
Qed.

Lemma sendMessage_wellFormed text now s s1 p :
  sendMessage text now s = (s1, Some p) -> wellFormedReply p.
Proof.
  intros H. apply sendMessage_inv in H. destruct H as (_ & _ & Hup & _).
  unfold wellFormedReply. rewrite Hup. reflexivity.
Qed.

Lemma replyTimeout_unique p now t :
  wellFormedReply p ->
  uniqueSessions t -> uniqueSessions (replyTimeout p now t).
Proof.
  intros Hwf Huniq. unfold uniqueSessions. rewrite replyTimeout_chats.
  rewrite (@replaceChat_ids _
             (fun c =>
                if View.eqb (sent_currentView p) View.chat
                then replyChat p now
                else Chat.with_unreadCount (replyChat p now)
                       (Chat.unreadCount c + 1)));
    [assumption|].
  intros c _. destruct (View.eqb _ _); exact Hwf.
Qed.

Lemma selectChat_unique chat s :
  uniqueSessions s -> uniqueSessions (selectChat chat s).
Proof.
  unfold uniqueSessions, selectChat. intros Huniq. simpl.
  rewrite replaceChat_ids; [assumption|]. reflexivity.
Qed.

(** [handleConnect] adds its session without looking: the sessions stay
    unique when none is keyed by the candidate's id at that moment. *)
Lemma handleConnect_unique encounter initialMsg now s :
  findChat (Encounter.id encounter) (chats s) = None ->
  uniqueSessions s -> uniqueSessions (handleConnect encounter initialMsg now s).
Proof.
  unfold uniqueSessions. intros Hnone Huniq. rewrite handleConnect_chats.
  destruct (isInstantMatch encounter); [|assumption].
  simpl. constructor; [|assumption].
  intros Hin. apply in_map_iff in Hin. destruct Hin as (c & Hk & Hin).
  rewrite findChat_None in Hnone. now apply (Hnone c Hin).
Qed.

(** Every event keeps the sessions unique, except the opener of a connect
    arriving when a session is already keyed by the candidate. *)
Lemma applyEvent_unique ev s :
  match ev with
  | EvOpenerArrives encounter _ _ =>
      findChat (Encounter.id encounter) (chats s) = None
  | EvReplyTimeout p _ => wellFormedReply p
  | _ => True
  end ->
  uniqueSessions s -> uniqueSessions (applyEvent ev s).
Proof.
  destruct ev; simpl; intros Hev Huniq.
  - unfold handleCreateEncounter.
    destruct (mapCenter s); [|exact Huniq].
    destruct (falsy _ || falsy _); [exact Huniq|].
    destruct (5 <=? _)%nat; exact Huniq.
  - unfold handleQuickPublish.
    destruct (mapCenter s); [|exact Huniq].
    destruct (5 <=? _)%nat; exact Huniq.
  - exact Huniq.
  - exact Huniq.
  - unfold handleViewProfile. destruct (find _ _); exact Huniq.
  - unfold handleConnect_sync.
    destruct (isInstantMatch encounter); exact Huniq.
  - unfold uniqueSessions. simpl. constructor; [|exact Huniq].
    now apply findChat_None_ids.
  - now apply handleReject_unique.
  - now apply handleUnmatch_unique.
  - now apply openChat_unique.
  - destruct (nth_error (chats s) row); [|exact Huniq].
    now apply selectChat_unique.
  - now apply sendMessage_unique.
  - now apply replyTimeout_unique.
  - exact Huniq.
Qed.

(** C4 at the failing input: the candidate C liked the user and has no
    session; the user connects, opens the chat from the details view while
    the opener is awaited, and the opener arrives: two sessions are keyed by
    C. *)
Theorem connect_and_openChat_duplicate_session :
  Encounter.status Sample.candC = LIKED_BY_THEM
  /\ uniqueSessions Sample.initial
  /\ In OpenChat
       (detailsActions (Encounter.with_status Sample.candC MATCHED))
  /\ Sample.raced
     = run [EvConnect Sample.candC; EvOpenChat "C" 10;
            EvOpenerArrives Sample.candC "Hola" 20] Sample.initial
  /\ List.map Chat.encounterId (chats Sample.raced) = ["C"; "C"]
  /\ ~ uniqueSessions Sample.raced.
Proof.
  split; [reflexivity|]. split; [constructor|].
  split; [simpl; auto|]. split; [reflexivity|]. split; [reflexivity|].
  unfold uniqueSessions.
  change (List.map Chat.encounterId (chats Sample.raced)) with ["C"; "C"].
  intros H. inversion H as [|? ? Hnotin _]. apply Hnotin. simpl. auto.
Qed.

(** ** Clustering *)

Section ClusteringFacts.

Variable pow_approx : float -> float -> float.

Lemma has_singleton_self (k : string) (ids : list string) :
  has (k :: ids) k = true.
Proof. unfold has. simpl. now rewrite String.eqb_refl. Qed.

Lemma joinStep_processed T current group ids other :
  has ids (Encounter.id other) = true ->
  joinStep pow_approx T current (group, ids) other = (group, ids).
Proof. intros H. unfold joinStep. now rewrite H. Qed.

Lemma joinStep_fresh T current group ids other :
  has ids (Encounter.id other) = false ->
  joinStep pow_approx T current (group, ids) other
  = if (clusterDist pow_approx current other <? T)%float
    then (group ++ [other], Encounter.id other :: ids)
    else (group, ids).
Proof. intros H. unfold joinStep. now rewrite H. Qed.

Lemma clusterStep_processed T markers cl sg ids current :
  has ids (Encounter.id current) = true ->
  clusterStep pow_approx T markers (cl, sg, ids) current = (cl, sg, ids).
Proof. intros H. unfold clusterStep. now rewrite H. Qed.

Lemma clusterStep_fresh T markers cl sg ids current group ids' :
  has ids (Encounter.id current) = false ->
  fold_left (joinStep pow_approx T current) markers
    ([current], Encounter.id current :: ids) = (group, ids') ->
  clusterStep pow_approx T markers (cl, sg, ids) current
  = if (1 <? List.length group)%nat
    then
      (cl ++
         [ {| cluster_id := "cluster-" ++ Encounter.id current;
              cluster_lat :=
                average (fun item => lat (Encounter.location item)) group;
              cluster_lng :=
                average (fun item => lng (Encounter.location item)) group;
              count := List.length group |} ],
       sg, ids')
    else (cl, sg ++ [current], ids').
Proof. intros H Hfold. unfold clusterStep. now rewrite H, Hfold. Qed.

(** Two posts with different ids: one cluster of two at the mean coordinate
    when [clusterDist] of the first to the second is below the threshold,
    two single markers otherwise. *)
Lemma clusterMarkers_pair (T : float) (a b : Encounter.t) :
  Encounter.id a <> Encounter.id b ->
  clusterMarkers pow_approx T [a; b]
  = if (clusterDist pow_approx a b <? T)%float
    then
      {| clusters :=
           [ {| cluster_id := "cluster-" ++ Encounter.id a;
                cluster_lat :=
                  ((0 + lat (Encounter.location a)
                    + lat (Encounter.location b)) / 2)%float;
                cluster_lng :=
                  ((0 + lng (Encounter.location a)
                    + lng (Encounter.location b)) / 2)%float;
                count := 2 |} ];
         singles := [] |}
    else {| clusters := []; singles := [a; b] |}.
Proof.
  intros Hab.
  assert (Hb : forall ids, has (Encounter.id a :: ids) (Encounter.id b)
                           = has ids (Encounter.id b)).
  { intros ids. unfold has. simpl.
    apply String.eqb_neq in Hab. now rewrite String.eqb_sym, Hab. }
  assert (Ha : has [Encounter.id b; Encounter.id a] (Encounter.id a) = true).
  { unfold has. simpl. rewrite String.eqb_refl. apply orb_true_r. }
  assert (Hinner_a :
            fold_left (joinStep pow_approx T a) [a; b]
              ([a], [Encounter.id a])
            = if (clusterDist pow_approx a b <? T)%float
              then ([a; b], [Encounter.id b; Encounter.id a])
              else ([a], [Encounter.id a])).
  { cbn [fold_left].
    rewrite joinStep_processed by apply has_singleton_self.
    rewrite joinStep_fresh by (rewrite Hb; reflexivity). reflexivity. }
  assert (Hinner_b :
            fold_left (joinStep pow_approx T b) [a; b]
              ([b], [Encounter.id b; Encounter.id a])
            = ([b], [Encounter.id b; Encounter.id a])).
  { cbn [fold_left].
    rewrite joinStep_processed by exact Ha.
    rewrite joinStep_processed by apply has_singleton_self. reflexivity. }
  unfold clusterMarkers. cbn [fold_left].
  destruct (clusterDist pow_approx a b <? T)%float.
  - rewrite (@clusterStep_fresh T [a; b] [] [] [] a _ _ eq_refl Hinner_a).
    cbn [List.length Nat.ltb Nat.leb app].
    rewrite clusterStep_processed by apply has_singleton_self.
    reflexivity.
  - rewrite (@clusterStep_fresh T [a; b] [] [] [] a _ _ eq_refl Hinner_a).
    cbn [List.length Nat.ltb Nat.leb app].
    rewrite (@clusterStep_fresh T [a; b] [] [a] [Encounter.id a] b _ _
               (Hb []) Hinner_b).
    reflexivity.
Qed.

(** When the longitudes cancel, the inner power is 0 and the outer one is
    [dLat ^ 0 = 1]: whatever the latitudes, the two posts are never below a
    threshold of the three zoom bands. *)
Lemma clusterDist_same_longitude (a b : Encounter.t) :
  (lng (Encounter.location a) - lng (Encounter.location b))%float = 0%float ->
  clusterDist pow_approx a b = 1%float.
Proof. intros H. unfold clusterDist. rewrite H. reflexivity. Qed.

Lemma same_longitude_never_clustered (zoom : float) (a b : Encounter.t) :
  Encounter.id a <> Encounter.id b ->
  (lng (Encounter.location a) - lng (Encounter.location b))%float = 0%float ->
  clusterMarkers pow_approx (threshold zoom) [a; b]
  = {| clusters := []; singles := [a; b] |}.
Proof.
  intros Hid Hlng. rewrite clusterMarkers_pair by exact Hid.
  rewrite clusterDist_same_longitude by exact Hlng.
  unfold threshold.
  destruct (zoom <? 14)%float; [reflexivity|].
  destruct (zoom <? 16)%float; reflexivity.
Qed.

Variable getDistanceInMeters : float -> float -> float -> float -> float.
Variable MATCH_RADIUS : float.

(** C5 at the failing input: two own posts published from the same map
    centre are at planar distance 0, below the threshold of the zoom level,
    and [clusteredMarkers] emits them as two single markers and no
    cluster. *)
Theorem colocated_posts_not_clustered :
  (exists a b,
      myEncounters Sample.twoPosts = [a; b]
      /\ Encounter.id a <> Encounter.id b
      /\ Encounter.location a = Encounter.location b
      /\ (planarDistance (Encounter.location a) (Encounter.location b)
          <? threshold (mapZoom Sample.twoPosts))%float = true
      /\ (clusterDist pow_approx a b
          <? threshold (mapZoom Sample.twoPosts))%float = false)
  /\ clusteredMarkers pow_approx getDistanceInMeters MATCH_RADIUS
       Sample.twoPosts
     = {| clusters := []; singles := myEncounters Sample.twoPosts |}.
Proof.
  split.
  - eexists _, _. split; [reflexivity|].
    split; [discriminate|]. repeat split.
  - reflexivity.
Qed.

End ClusteringFacts.

(** * Further properties of the code *)

(** ** Visibility under the handlers *)

Section VisibilityUnderHandlers.

Variable getDistanceInMeters : float -> float -> float -> float -> float.
Variable MATCH_RADIUS : float.

Let visibleOf' := visibleOf getDistanceInMeters MATCH_RADIUS.
Let visible := visibleEncounters getDistanceInMeters MATCH_RADIUS.

(** X1: With the show-hidden flag off the visible candidates are those visible
    with the flag on whose status is not [HIDDEN]: the flag only adds hidden
    candidates and never removes one. *)
Theorem showHidden_only_adds_hidden
    (myEncounters nearbyEncounters : list Encounter.t) (e : Encounter.t) :
  In e (visibleOf' myEncounters nearbyEncounters false)
  <->
  In e (visibleOf' myEncounters nearbyEncounters true)
  /\ Encounter.status e <> HIDDEN.
Proof.
  unfold visibleOf'. rewrite !visibleOf_In. split.
  - intros (Hin & [H|H] & Hnear); [discriminate|]. tauto.
  - intros ((Hin & _ & Hnear) & Hst). tauto.
Qed.

Lemma visibleOf_monotone
    (mine mine' nearbyEncounters : list Encounter.t) (showHidden : bool) :
  incl mine mine' ->
  incl (visibleOf' mine nearbyEncounters showHidden)
       (visibleOf' mine' nearbyEncounters showHidden).
Proof.
  intros Hincl e. unfold visibleOf'. rewrite !visibleOf_In.
  intros (Hin & Hst & m & Hm & Hd). split; [assumption|].
  split; [assumption|]. exists m. auto.
Qed.

Lemma visible_monotone_state (s s' : State) :
  nearbyEncounters s' = nearbyEncounters s ->
  showHidden s' = showHidden s ->
  incl (myEncounters s) (myEncounters s') ->
  incl (visible s) (visible s').
Proof.
  unfold visible, visibleEncounters. intros -> -> H.
  now apply visibleOf_monotone.
Qed.

(** X2: Deleting an own post never makes a candidate visible: the visible
    candidates afterwards were all visible before. *)
Theorem delete_shrinks_visible (encounter : Encounter.t) (s : State) :
  incl (visible (handleDeleteEncounter encounter s)) (visible s).
Proof.
  apply visible_monotone_state; [reflexivity|reflexivity|].
  intros e He. simpl in He. apply filter_In in He. tauto.
Qed.

(** X3: Publishing never hides a candidate: whatever was visible before a
    detailed or a quick publish is visible after it. *)
Theorem publish_grows_visible (now : Z) (s : State) :
  incl (visible s) (visible (handleCreateEncounter now s))
  /\ incl (visible s) (visible (handleQuickPublish now s)).
Proof.
  unfold handleCreateEncounter, handleQuickPublish.
  split.
  - destruct (mapCenter s); [|apply incl_refl].
    destruct (falsy _ || falsy _); [apply incl_refl|].
    destruct (5 <=? _)%nat; [apply incl_refl|].
    apply visible_monotone_state; [reflexivity|reflexivity|].
    intros e He. now right.
  - destruct (mapCenter s); [|apply incl_refl].
    destruct (5 <=? _)%nat; [apply incl_refl|].
    apply visible_monotone_state; [reflexivity|reflexivity|].
    intros e He. now right.
Qed.

(** X4: A rejected candidate leaves the visible list when hidden candidates are
    not shown: no visible candidate has the id of the rejected one. *)
Theorem reject_hides_candidate (s : State) (selected e : Encounter.t) :
  selectedEncounter s = Some selected ->
  showHidden s = false ->
  In e (visible (handleReject s)) ->
  Encounter.id e <> Encounter.id selected.
Proof.
  intros Hsel Hflag Hin Hid.
  assert (Hshow : showHidden (handleReject s) = false).
  { unfold handleReject. rewrite Hsel. exact Hflag. }
  unfold visible, visibleEncounters in Hin. rewrite Hshow in Hin.
  apply visibleOf_In in Hin. destruct Hin as (Hin & [H|Hst] & _);
    [discriminate|].
  destruct (handleReject_selected s Hsel) as [Hn _]. rewrite Hn in Hin.
  destruct (@replace_inv _ (fun _ => Encounter.with_status selected HIDDEN)
              _ _ Hin Hid) as (e0 & _ & _ & ->).
  now apply Hst.
Qed.

End VisibilityUnderHandlers.

Lemma reject_hides_candidate_witness :
  In Sample.candC
    (visibleEncounters (fun _ _ _ _ => 0%float) 150
       (handleReject
          (selectEncounter Sample.candA
             (handleQuickPublish 1 Sample.initial))))
  /\ Encounter.id Sample.candC <> "A".
Proof.
  assert (H : In Sample.candC
                (visibleEncounters (fun _ _ _ _ => 0%float) 150
                   (handleReject
                      (selectEncounter Sample.candA
                         (handleQuickPublish 1 Sample.initial)))))
    by (left; reflexivity).
  split; [exact H|].
  exact (@reject_hides_candidate (fun _ _ _ _ => 0%float) 150%float
           (selectEncounter Sample.candA
              (handleQuickPublish 1 Sample.initial))
           Sample.candA Sample.candC eq_refl eq_refl H).
Defined.

(** ** Explore tab *)

Lemma tag_eqb_eq (a b : EncounterTag) : tag_eqb a b = true <-> a = b.
Proof. destruct a, b; simpl; split; congruence. Qed.

Lemma includes_In (tags : list EncounterTag) (tag : EncounterTag) :
  includes tags tag = true <-> In tag tags.
Proof.
  unfold includes. rewrite existsb_exists. split.
  - intros (t & Hin & Heq). apply tag_eqb_eq in Heq. now subst.
  - intros Hin. exists tag. split; [assumption|]. now apply tag_eqb_eq.
Qed.

Lemma find_by_id_unique (l : list Encounter.t) (e : Encounter.t) :
  NoDup (List.map Encounter.id l) -> In e l ->
  find (fun x => (Encounter.id x =? Encounter.id e)%string) l = Some e.
Proof.
  induction l as [|a l IH]; simpl; intros Hnd Hin; [contradiction|].
  inversion Hnd as [|? ? Hnotin Hnd']; subst.
  destruct Hin as [->|Hin].
  - now rewrite String.eqb_refl.
  - destruct (Encounter.id a =? Encounter.id e)%string eqn:E; [|auto].
    apply String.eqb_eq in E. exfalso. apply Hnotin. rewrite E.
    now apply in_map.
Qed.

Section ExploreFacts.

Variable getDistanceInMeters : float -> float -> float -> float -> float.
Variable MATCH_RADIUS : float.

Let visible := visibleEncounters getDistanceInMeters MATCH_RADIUS.
Let explore := exploreList getDistanceInMeters MATCH_RADIUS.
Let near := withinRadius getDistanceInMeters MATCH_RADIUS.
Let counted := nearbyCount getDistanceInMeters MATCH_RADIUS.

(** X5: Drill-down on an own post: every listed candidate is visible and within
    the radius of an own post with the selected id, and the list is empty
    when no own post has that id. *)
Theorem exploreList_drilldown
    (myId : string) (filterTags : list EncounterTag) (s : State) :
  exploreMode s = ExploreMode.drilldown ->
  myId <> "" ->
  (forall e, In e (explore (Some myId) filterTags s) ->
             In e (visible s)
             /\ exists myPost,
                  In myPost (myEncounters s)
                  /\ Encounter.id myPost = myId
                  /\ near myPost e = true)
  /\ ((forall m, In m (myEncounters s) -> Encounter.id m <> myId) ->
      explore (Some myId) filterTags s = []).
Proof.
  intros Hmode Hid. unfold explore, exploreList. rewrite Hmode.
  unfold truthy. rewrite (falsy_false Hid).
  destruct (find _ (myEncounters s)) as [myPost|] eqn:Hfind.
  - apply find_some in Hfind. destruct Hfind as [Hin Hk].
    apply String.eqb_eq in Hk. split.
    + intros e He. apply filter_In in He. destruct He as [Hvis Hnear].
      split; [exact Hvis|]. exists myPost. auto.
    + intros Hnone. now destruct (Hnone myPost Hin).
  - split; [intros e []|reflexivity].
Qed.

(** X6: List mode: with no tag chosen the list is the visible candidates; with
    tags chosen it is the visible candidates that carry at least one of
    them. *)
Theorem exploreList_list
    (selected : option string) (filterTags : list EncounterTag) (s : State) :
  exploreMode s = ExploreMode.list ->
  explore selected [] s = visible s
  /\ (filterTags <> [] ->
      forall e,
        In e (explore selected filterTags s)
        <-> In e (visible s)
            /\ exists tag, In tag (Encounter.tags e) /\ In tag filterTags).
Proof.
  intros Hmode. unfold explore, exploreList. rewrite Hmode.
  split; [destruct (truthy selected); reflexivity|].
  intros Hne e.
  assert (Hlen : (0 <? List.length filterTags)%nat = true).
  { destruct filterTags; [contradiction|reflexivity]. }
  assert (Hbody :
            In e (filter
                    (fun e0 => existsb (fun tag => includes filterTags tag)
                                 (Encounter.tags e0))
                    (visible s))
            <-> In e (visible s)
                /\ exists tag, In tag (Encounter.tags e)
                               /\ In tag filterTags).
  { rewrite filter_In, existsb_exists.
    split; intros (Hin & tag & Ht & Hf); (split; [assumption|]);
      exists tag; (split; [assumption|]); now apply includes_In. }
  destruct (truthy selected); rewrite Hlen; exact Hbody.
Qed.

(** X7: The number on an own post's card in the grouped view is the length of
    the list its drill-down shows, when the own posts have distinct ids. *)
Theorem nearbyCount_is_drilldown_length
    (mine : Encounter.t) (filterTags : list EncounterTag) (s : State) :
  exploreMode s = ExploreMode.drilldown ->
  NoDup (List.map Encounter.id (myEncounters s)) ->
  In mine (myEncounters s) ->
  Encounter.id mine <> "" ->
  List.length (explore (Some (Encounter.id mine)) filterTags s)
  = counted mine s.
Proof.
  intros Hmode Hnd Hin Hid. unfold explore, exploreList, counted, nearbyCount.
  rewrite Hmode. unfold truthy. rewrite (falsy_false Hid).
  rewrite (@find_by_id_unique _ _ Hnd Hin). reflexivity.
Qed.

(** X8: No visible candidate is left out of the grouped view: every visible
    candidate [e] is within the radius of an own post, is one of the
    candidates that the card of that own post counts (the visible ones
    within its radius), and so that card shows at least 1. *)
Theorem visible_is_counted (e : Encounter.t) (s : State) :
  In e (visible s) ->
  exists mine,
    In mine (myEncounters s)
    /\ near mine e = true
    /\ In e (filter (fun other => near mine other) (visible s))
    /\ counted mine s
       = List.length (filter (fun other => near mine other) (visible s))
    /\ 1 <= counted mine s.
Proof.
  intros Hvis.
  assert (Hv := Hvis). unfold visible, visibleEncounters in Hv.
  apply visibleOf_In in Hv. destruct Hv as (_ & _ & mine & Hmine & Hd).
  assert (Hin : In e (filter (fun other => near mine other) (visible s))).
  { apply filter_In. split; assumption. }
  exists mine. split; [assumption|]. split; [exact Hd|].
  split; [exact Hin|]. split; [reflexivity|].
  change (counted mine s)
    with (List.length (filter (fun other => near mine other) (visible s))).
  destruct (filter _ _); [contradiction|simpl; lia].
Qed.

End ExploreFacts.

(** ** Invariants of the transition system *)

Lemma run_cons (ev : Event) (evs : list Event) (s : State) :
  run (ev :: evs) s = run evs (applyEvent ev s).
Proof. reflexivity. Qed.

Lemma replace_ids (k : string) (f : Encounter.t -> Encounter.t)
    (l : list Encounter.t) :
  (forall e, Encounter.id e = k -> Encounter.id (f e) = k) ->
  List.map Encounter.id
    (List.map (fun e => if (Encounter.id e =? k)%string then f e else e) l)
  = List.map Encounter.id l.
Proof.
  intros Hf. rewrite map_map. apply map_ext. intros e.
  destruct (Encounter.id e =? k)%string eqn:E; [|reflexivity].
  apply String.eqb_eq in E. now rewrite (Hf e E).
Qed.

Lemma applyEvent_catalog_ids (ev : Event) (s : State) :
  List.map Encounter.id (nearbyEncounters (applyEvent ev s))
  = List.map Encounter.id (nearbyEncounters s).
Proof.
  destruct ev; simpl; try reflexivity.
  - unfold handleCreateEncounter. destruct (mapCenter s); [|reflexivity].
    destruct (falsy _ || falsy _); [reflexivity|].
    destruct (5 <=? _)%nat; reflexivity.
  - unfold handleQuickPublish. destruct (mapCenter s); [|reflexivity].
    destruct (5 <=? _)%nat; reflexivity.
  - unfold handleViewProfile. destruct (find _ _); reflexivity.
  - unfold handleConnect_sync.
    destruct (isInstantMatch encounter); simpl;
      now rewrite replace_ids by (intros e He; reflexivity).
  - unfold handleReject. destruct (selectedEncounter s); [|reflexivity].
    simpl. now rewrite replace_ids by (intros e0 He; reflexivity).
  - unfold handleUnmatch. destruct (selectedEncounter s); [|reflexivity].
    simpl. now rewrite replace_ids by (intros e0 He; exact He).
  - unfold openChat. destruct (findChat _ _); [reflexivity|].
    destruct (find _ _); reflexivity.
  - destruct (nth_error _ _); reflexivity.
  - unfold sendMessage. destruct (activeChat s); reflexivity.
  - now rewrite (proj1 (replyTimeout_frame p now s)).
Qed.

(** X9: Candidates are never removed, added or reordered: after any sequence of
    events the catalog has the same ids in the same order. *)
Theorem catalog_ids_invariant (evs : list Event) (s : State) :
  List.map Encounter.id (nearbyEncounters (run evs s))
  = List.map Encounter.id (nearbyEncounters s).
Proof.
  revert s. induction evs as [|ev evs IH]; intros s; [reflexivity|].
  rewrite run_cons, IH. apply applyEvent_catalog_ids.
Qed.

Lemma applyEvent_cap (ev : Event) (s : State) :
  List.length (myEncounters s) <= 5 ->
  List.length (myEncounters (applyEvent ev s)) <= 5.
Proof.
  intros Hcap. destruct ev; simpl; try exact Hcap.
  - unfold handleCreateEncounter. destruct (mapCenter s); [|exact Hcap].
    destruct (falsy _ || falsy _); [exact Hcap|].
    destruct (5 <=? List.length (myEncounters s))%nat eqn:E; [exact Hcap|].
    apply Nat.leb_gt in E. simpl. lia.
  - unfold handleQuickPublish. destruct (mapCenter s); [|exact Hcap].
    destruct (5 <=? List.length (myEncounters s))%nat eqn:E; [exact Hcap|].
    apply Nat.leb_gt in E. simpl. lia.
  - etransitivity; [apply filter_length_le|exact Hcap].
  - unfold handleViewProfile. destruct (find _ _); exact Hcap.
  - unfold handleConnect_sync. destruct (isInstantMatch _); exact Hcap.
  - unfold handleReject. destruct (selectedEncounter s); exact Hcap.
  - unfold handleUnmatch. destruct (selectedEncounter s); exact Hcap.
  - unfold openChat. destruct (findChat _ _); [exact Hcap|].
    destruct (find _ _); exact Hcap.
  - destruct (nth_error _ _); exact Hcap.
  - unfold sendMessage. destruct (activeChat s); exact Hcap.
  - now rewrite (proj1 (proj2 (replyTimeout_frame p now s))).
Qed.

(** X10: The cap of five own posts is kept by every sequence of events. *)
Theorem own_posts_cap_invariant (evs : list Event) (s : State) :
  List.length (myEncounters s) <= 5 ->
  List.length (myEncounters (run evs s)) <= 5.
Proof.
  revert s. induction evs as [|ev evs IH]; intros s Hcap; [exact Hcap|].
  rewrite run_cons. apply IH. now apply applyEvent_cap.
Qed.

Lemma own_posts_cap_invariant_witness :
  List.length (myEncounters Sample.full) <= 5
  /\ List.length
       (myEncounters
          (run [EvQuickPublish 6; EvCreateEncounter 7; EvQuickPublish 8]
             Sample.full)) <= 5.
Proof.
  assert (H : List.length (myEncounters Sample.full) <= 5)
    by (apply Nat.eq_le_incl; reflexivity).
  split; [exact H|].
  exact (@own_posts_cap_invariant
           [EvQuickPublish 6; EvCreateEncounter 7; EvQuickPublish 8]
           Sample.full H).
Defined.

Lemma applyEvent_liked_by_them (ev : Event) (s : State) (e' : Encounter.t) :
  In e' (nearbyEncounters (applyEvent ev s)) ->
  Encounter.status e' = LIKED_BY_THEM ->
  In e' (nearbyEncounters s).
Proof.
  assert (Hmap :
            forall (k : string) (f : Encounter.t -> Encounter.t),
              (forall e, Encounter.status (f e) <> LIKED_BY_THEM) ->
              In e' (List.map
                       (fun e => if (Encounter.id e =? k)%string
                                 then f e else e)
                       (nearbyEncounters s)) ->
              Encounter.status e' = LIKED_BY_THEM ->
              In e' (nearbyEncounters s)).
  { intros k f Hf Hin Hst. apply in_map_iff in Hin.
    destruct Hin as (e & He & Hin).
    destruct (Encounter.id e =? k)%string; [|now subst].
    subst e'. now destruct (Hf e). }
  destruct ev; simpl; try (intros H _; exact H).
  - unfold handleCreateEncounter. destruct (mapCenter s); [|auto].
    destruct (falsy _ || falsy _); [auto|].
    destruct (5 <=? _)%nat; auto.
  - unfold handleQuickPublish. destruct (mapCenter s); [|auto].
    destruct (5 <=? _)%nat; auto.
  - unfold handleViewProfile. destruct (find _ _); auto.
  - unfold handleConnect_sync.
    destruct (isInstantMatch encounter); simpl;
      apply Hmap; intros e; simpl; discriminate.
  - unfold handleReject. destruct (selectedEncounter s); [|auto].
    simpl. apply Hmap. intros e; simpl; discriminate.
  - unfold handleUnmatch. destruct (selectedEncounter s); [|auto].
    simpl. apply Hmap. intros e; simpl; discriminate.
  - unfold openChat. destruct (findChat _ _); [auto|].
    destruct (find _ _); auto.
  - destruct (nth_error _ _); auto.
  - unfold sendMessage. destruct (activeChat s); auto.
  - rewrite (proj1 (replyTimeout_frame p now s)). auto.
Qed.

(** X11: No event sets the status [LIKED_BY_THEM]: a candidate of the catalog that
    has it after a sequence of events is an unchanged entry of the catalog
    the sequence started from. *)
Theorem liked_by_them_never_entered
    (evs : list Event) (s : State) (e' : Encounter.t) :
  In e' (nearbyEncounters (run evs s)) ->
  Encounter.status e' = LIKED_BY_THEM ->
  In e' (nearbyEncounters s).
Proof.
  revert s. induction evs as [|ev evs IH]; intros s Hin Hst; [exact Hin|].
  rewrite run_cons in Hin.
  apply (applyEvent_liked_by_them ev); [|exact Hst]. now apply IH.
Qed.

Lemma liked_by_them_never_entered_witness :
  In Sample.candC
    (nearbyEncounters
       (run [EvConnect Sample.candA; EvSelectEncounter Sample.candB;
             EvReject] Sample.initial))
  /\ In Sample.candC (nearbyEncounters Sample.initial).
Proof.
  assert (H : In Sample.candC
                (nearbyEncounters
                   (run [EvConnect Sample.candA;
                         EvSelectEncounter Sample.candB; EvReject]
                      Sample.initial)))
    by (left; reflexivity).
  split; [exact H|].
  exact (@liked_by_them_never_entered
           [EvConnect Sample.candA; EvSelectEncounter Sample.candB; EvReject]
           Sample.initial Sample.candC H eq_refl).
Defined.

(** ** Opening a chat *)

Lemma findChat_replace (k : string) (u : Chat.t) (cs : list Chat.t) :
  Chat.encounterId u = k ->
  (exists c, In c cs /\ Chat.encounterId c = k) ->
  findChat k
    (List.map (fun c => if (Chat.encounterId c =? k)%string then u else c) cs)
  = Some u.
Proof.
  intros Hu (c & Hin & Hc). unfold findChat.
  induction cs as [|a cs IH]; simpl; [contradiction|].
  destruct (Chat.encounterId a =? k)%string eqn:E.
  - now rewrite Hu, String.eqb_refl.
  - rewrite E. destruct Hin as [->|Hin]; [|auto].
    rewrite Hc, String.eqb_refl in E. discriminate.
Qed.

Lemma find_encounter_None (k : string) (l : list Encounter.t) :
  (forall e, In e l -> Encounter.id e <> k) ->
  find (fun e => (Encounter.id e =? k)%string) l = None.
Proof.
  intros H. destruct (find _ l) as [e|] eqn:E; [|reflexivity].
  apply find_some in E. destruct E as [Hin Hk].
  apply String.eqb_eq in Hk. now destruct (H e Hin).
Qed.

(** X12: [openChat] on an id that has a session, or else a candidate in the
    catalog, opens it: the open chat is keyed by the id with unread count 0,
    it is the session a lookup of the id finds, the chat view is shown and
    the match overlay is hidden.  On an id with neither, the state is left
    as it is. *)
Theorem openChat_spec (encounterId : string) (now : Z) (s : State) :
  ((findChat encounterId (chats s) <> None
    \/ exists enc, In enc (nearbyEncounters s)
                   /\ Encounter.id enc = encounterId) ->
   exists c,
     activeChat (openChat encounterId now s) = Some c
     /\ Chat.encounterId c = encounterId
     /\ Chat.unreadCount c = 0%Z
     /\ findChat encounterId (chats (openChat encounterId now s)) = Some c
     /\ currentView (openChat encounterId now s) = View.chat
     /\ visible (showMatchOverlay (openChat encounterId now s)) = false)
  /\ (findChat encounterId (chats s) = None ->
      (forall enc, In enc (nearbyEncounters s) ->
                   Encounter.id enc <> encounterId) ->
      openChat encounterId now s = s).
Proof.
  split.
  - intros Hex. unfold openChat.
    destruct (findChat encounterId (chats s)) as [c|] eqn:Hfind.
    + apply findChat_Some in Hfind. destruct Hfind as [Hin Hk].
      exists (Chat.with_unreadCount c 0). simpl.
      repeat split; try assumption.
      apply findChat_replace; [exact Hk|]. now exists c.
    + destruct Hex as [Hex|(enc0 & Hin0 & Hid0)]; [now destruct Hex|].
      destruct (find _ (nearbyEncounters s)) as [enc|] eqn:Henc.
      * apply find_encounter_id in Henc.
        exists (Chat.with_unreadCount (recoveryChat enc now) 0). simpl.
        repeat split; try assumption.
        apply findChat_replace; [exact Henc|].
        exists (recoveryChat enc now). split; [|exact Henc].
        apply in_or_app. right. now left.
      * exfalso. apply (find_none _ _ Henc) in Hin0. simpl in Hin0.
        rewrite Hid0, String.eqb_refl in Hin0. discriminate.
  - intros Hnone Hcat. unfold openChat.
    rewrite Hnone, (find_encounter_None _ Hcat). reflexivity.
Qed.

Lemma openChat_spec_witness :
  (exists enc, In enc (nearbyEncounters Sample.initial)
               /\ Encounter.id enc = "A")
  /\ exists c, activeChat (openChat "A" 10 Sample.initial) = Some c
               /\ Chat.encounterId c = "A".
Proof.
  assert (H : exists enc, In enc (nearbyEncounters Sample.initial)
                          /\ Encounter.id enc = "A").
  { exists Sample.candA. split; [right; left; reflexivity|reflexivity]. }
  split; [exact H|].
  destruct (proj1 (openChat_spec "A" 10 Sample.initial) (or_intror H))
    as (c & Hc & Hk & _).
  exists c. split; assumption.
Defined.

(** X13: The recovery path: when no session is keyed by the id and the catalog
    has a candidate with it, [openChat] appends one session after the
    existing ones, keyed by the candidate, with the partner's name, unread
    count 0 and the system match message as its only message (no opener). *)
Theorem openChat_recovery (encounterId : string) (now : Z) (s : State)
    (enc : Encounter.t) :
  findChat encounterId (chats s) = None ->
  find (fun e => (Encounter.id e =? encounterId)%string) (nearbyEncounters s)
  = Some enc ->
  exists c sys,
    chats (openChat encounterId now s) = chats s ++ [c]
    /\ activeChat (openChat encounterId now s) = Some c
    /\ Chat.encounterId c = encounterId
    /\ Chat.partnerName c = UserProfile.name (Encounter.userProfile enc)
    /\ Chat.unreadCount c = 0%Z
    /\ Chat.messages c = [sys]
    /\ ChatMessage.senderId sys = "system"
    /\ ChatMessage.text sys = MATCH_TEXT.
Proof.
  intros Hnone Henc. unfold openChat. rewrite Hnone, Henc.
  apply find_encounter_id in Henc.
  exists (recoveryChat enc now), (ChatMessage.mk "sys-recovery" "system"
                                    MATCH_TEXT now).
  simpl. split.
  - rewrite map_app. simpl. rewrite Henc, String.eqb_refl.
    f_equal. now apply replaceChat_absent.
  - repeat split. exact Henc.
Qed.

Lemma openChat_recovery_witness :
  exists c, chats (openChat "A" 10 Sample.initial)
            = chats Sample.initial ++ [c].
Proof.
  destruct (@openChat_recovery "A" 10 Sample.initial Sample.candA
              eq_refl eq_refl) as (c & sys & H & _).
  exists c. exact H.
Defined.

Lemma State_ext (a b : State) :
  activeTab a = activeTab b ->
  currentView a = currentView b ->
  mapCenter a = mapCenter b ->
  userProfile a = userProfile b ->
  myEncounters a = myEncounters b ->
  nearbyEncounters a = nearbyEncounters b ->
  chats a = chats b ->
  selectedEncounter a = selectedEncounter b ->
  activeChat a = activeChat b ->
  mapZoom a = mapZoom b ->
  newEncounterTitle a = newEncounterTitle b ->
  newEncounterDesc a = newEncounterDesc b ->
  newEncounterImage a = newEncounterImage b ->
  newEncounterTags a = newEncounterTags b ->
  exploreMode a = exploreMode b ->
  showHidden a = showHidden b ->
  mapFilters a = mapFilters b ->
  isTyping a = isTyping b ->
  showUnmatchDialog a = showUnmatchDialog b ->
  showMatchOverlay a = showMatchOverlay b ->
  notification a = notification b ->
  a = b.
Proof. destruct a, b; simpl; intros; subst; reflexivity. Qed.

Lemma replace_replace (k : string) (u : Chat.t) (cs : list Chat.t) :
  Chat.encounterId u = k ->
  List.map (fun c => if (Chat.encounterId c =? k)%string then u else c)
    (List.map (fun c => if (Chat.encounterId c =? k)%string then u else c) cs)
  = List.map (fun c => if (Chat.encounterId c =? k)%string then u else c) cs.
Proof.
  intros Hu. rewrite map_map. apply map_ext. intros c.
  destruct (Chat.encounterId c =? k)%string eqn:E.
  - now rewrite Hu, String.eqb_refl.
  - now rewrite E.
Qed.

(** X14: Opening a chat a second time changes nothing: [openChat] of an id right
    after [openChat] of the same id returns the state it is given. *)
Theorem openChat_idempotent (encounterId : string) (now now' : Z)
    (s : State) :
  openChat encounterId now' (openChat encounterId now s)
  = openChat encounterId now s.
Proof.
  assert (Hopen :
            forall (u : Chat.t) (cs : list Chat.t) (t : State),
              Chat.encounterId u = encounterId ->
              Chat.unreadCount u = 0%Z ->
              (exists c, In c cs /\ Chat.encounterId c = encounterId) ->
              let t' :=
                t |> setChats
                       (fun _ =>
                          List.map
                            (fun c =>
                               if (Chat.encounterId c =? encounterId)%string
                               then u else c) cs)
                  |> setActiveChat (fun _ => Some u)
                  |> setCurrentView View.chat
                  |> setShowMatchOverlay
                       {| visible := false; partner := None |} in
              openChat encounterId now' t' = t').
  { intros u cs t Hu Hz Hex t'. unfold openChat.
    replace (findChat encounterId (chats t')) with (Some u)
      by (symmetry; now apply findChat_replace).
    assert (Heta : Chat.with_unreadCount u 0 = u)
      by (destruct u; simpl in *; now subst).
    rewrite Heta. cbv beta iota zeta.
    apply State_ext; try reflexivity.
    unfold t'. simpl. now apply replace_replace. }
  unfold openChat at 2 3.
  destruct (findChat encounterId (chats s)) as [c|] eqn:Hfind.
  - apply findChat_Some in Hfind. destruct Hfind as [Hin Hk].
    apply (Hopen (Chat.with_unreadCount c 0) (chats s) s Hk eq_refl).
    now exists c.
  - destruct (find _ (nearbyEncounters s)) as [enc|] eqn:Henc.
    + assert (Hid := find_encounter_id _ _ Henc).
      apply (Hopen (Chat.with_unreadCount (recoveryChat enc now) 0)
               (chats s ++ [recoveryChat enc now]) s Hid eq_refl).
      exists (recoveryChat enc now). split; [|exact Hid].
      apply in_or_app. right. now left.
    + unfold openChat. now rewrite Hfind, Henc.
Qed.

(** ** The unread badge *)

Lemma unreadSum_cons (c : Chat.t) (cs : list Chat.t) :
  unreadSum (c :: cs) = (Chat.unreadCount c + unreadSum cs)%Z.
Proof.
  unfold unreadSum. simpl.
  assert (Hacc : forall l a,
            fold_left (fun acc chat => (acc + Chat.unreadCount chat)%Z) l a
            = (a + fold_left
                     (fun acc chat => (acc + Chat.unreadCount chat)%Z) l 0)%Z).
  { induction l as [|x l IH]; intros a; simpl; [lia|].
    rewrite IH, (IH (Chat.unreadCount x)). lia. }
  apply Hacc.
Qed.

Lemma unreadSum_replace (k : string) (u c : Chat.t) (cs : list Chat.t) :
  NoDup (List.map Chat.encounterId cs) ->
  In c cs -> Chat.encounterId c = k ->
  unreadSum
    (List.map (fun x => if (Chat.encounterId x =? k)%string then u else x) cs)
  = (unreadSum cs - Chat.unreadCount c + Chat.unreadCount u)%Z.
Proof.
  induction cs as [|a cs IH]; simpl; intros Hnd Hin Hk; [contradiction|].
  inversion Hnd as [|? ? Hnotin Hnd']; subst.
  destruct (Chat.encounterId a =? Chat.encounterId c)%string eqn:E.
  - apply String.eqb_eq in E.
    assert (Hc : c = a).
    { destruct Hin as [Hin|Hin]; [now symmetry|].
      exfalso. apply Hnotin. rewrite E. now apply in_map. }
    subst c. rewrite replaceChat_absent.
    + rewrite !unreadSum_cons. lia.
    + apply findChat_None_ids. exact Hnotin.
  - destruct Hin as [->|Hin]; [now rewrite String.eqb_refl in E|].
    rewrite !unreadSum_cons, (IH Hnd' Hin eq_refl). lia.
Qed.

Lemma totalUnreadCount_unreadSum (s : State) :
  totalUnreadCount s = unreadSum (chats s).
Proof. reflexivity. Qed.

(** X15: Opening a chat takes its unread count off the badge: with at most one
    session per candidate, the total unread count after [openChat] is the
    total before minus the unread count of the opened session. *)
Theorem openChat_clears_badge (encounterId : string) (now : Z) (s : State)
    (c : Chat.t) :
  uniqueSessions s ->
  findChat encounterId (chats s) = Some c ->
  totalUnreadCount (openChat encounterId now s)
  = (totalUnreadCount s - Chat.unreadCount c)%Z.
Proof.
  intros Huniq Hfind. rewrite !totalUnreadCount_unreadSum.
  unfold openChat. rewrite Hfind.
  apply findChat_Some in Hfind. destruct Hfind as [Hin Hk].
  change (chats _)
    with (List.map
            (fun c' =>
               if (Chat.encounterId c' =? encounterId)%string
               then Chat.with_unreadCount c 0 else c')
            (chats s)) at 1.
  rewrite (@unreadSum_replace encounterId (Chat.with_unreadCount c 0) c
             (chats s) Huniq Hin Hk).
  simpl. lia.
Qed.

Lemma openChat_clears_badge_witness :
  totalUnreadCount
    (openChat "C" 30 (handleConnect Sample.candC "Hola" 20 Sample.initial))
  = 0%Z.
Proof.
  change 0%Z
    with (totalUnreadCount
            (handleConnect Sample.candC "Hola" 20 Sample.initial)
          - Chat.unreadCount (matchChat Sample.candC "Hola" 20))%Z.
  apply openChat_clears_badge; [|reflexivity].
  repeat constructor. intros [].
Defined.

(** X16: A match puts one unread message on the badge. *)
Theorem match_adds_one_unread (encounter : Encounter.t) (initialMsg : string)
    (now : Z) (s : State) :
  Encounter.status encounter = LIKED_BY_THEM ->
  totalUnreadCount (handleConnect encounter initialMsg now s)
  = (totalUnreadCount s + 1)%Z.
Proof.
  intros Hst. rewrite !totalUnreadCount_unreadSum, handleConnect_chats.
  unfold isInstantMatch. rewrite Hst.
  change (status_eqb LIKED_BY_THEM LIKED_BY_THEM) with true. cbv iota.
  rewrite unreadSum_cons.
  change (Chat.unreadCount (matchChat encounter initialMsg now)) with 1%Z.
  lia.
Qed.

Lemma match_adds_one_unread_witness :
  totalUnreadCount (handleConnect Sample.candC "Hola" 20 Sample.initial)
  = (totalUnreadCount Sample.initial + 1)%Z.
Proof.
  apply match_adds_one_unread. reflexivity.
Defined.

(** ** Messages and replies *)

(** X17: Sending with no chat open changes nothing and schedules no reply; with
    a chat open, the open chat and every session with its id hold its
    messages followed by the user's message, no session is added or
    removed, and the reply that is scheduled captured the view and the chat
    of that moment. *)
Theorem sendMessage_spec (text : string) (now : Z) (s : State) :
  (activeChat s = None -> sendMessage text now s = (s, None))
  /\ (forall active,
        activeChat s = Some active ->
        exists s1 p msg,
          sendMessage text now s = (s1, Some p)
          /\ ChatMessage.text msg = text
          /\ ChatMessage.senderId msg = UserProfile.id (userProfile s)
          /\ (exists c, activeChat s1 = Some c
                        /\ Chat.encounterId c = Chat.encounterId active
                        /\ Chat.messages c = Chat.messages active ++ [msg])
          /\ (forall c, In c (chats s1) ->
                        Chat.encounterId c = Chat.encounterId active ->
                        Chat.messages c = Chat.messages active ++ [msg])
          /\ List.map Chat.encounterId (chats s1)
             = List.map Chat.encounterId (chats s)
          /\ isTyping s1 = true
          /\ sent_activeChat p = active
          /\ sent_currentView p = currentView s).
Proof.
  split.
  - intros H. unfold sendMessage. now rewrite H.
  - intros active H. unfold sendMessage. rewrite H.
    eexists _, _, (ChatMessage.mk ("msg-" ++ JS.toString now)
                     (UserProfile.id (userProfile s)) text now).
    split; [reflexivity|]. simpl.
    split; [reflexivity|]. split; [reflexivity|].
    split; [eexists; repeat split|]. split.
    + intros c Hin Hk.
      destruct (@replaceChat_In _
                  (fun _ =>
                     Chat.with_messages active
                       (Chat.messages active
                        ++ [ChatMessage.mk ("msg-" ++ JS.toString now)
                              (UserProfile.id (userProfile s)) text now]))
                  _ _ Hin Hk) as (c0 & _ & _ & ->); reflexivity.
    + split; [|repeat split]. now apply replaceChat_ids.
Qed.

Lemma sendMessage_spec_witness :
  exists s1 p, sendMessage "hola" 3000 Sample.chatting = (s1, Some p)
               /\ sent_activeChat p = Sample.chatM.
Proof.
  destruct (proj2 (sendMessage_spec "hola" 3000 Sample.chatting)
              Sample.chatM eq_refl)
    as (s1 & p & msg & H & _ & _ & _ & _ & _ & _ & Hp & _).
  exists s1, p. split; assumption.
Defined.

(** X18: The reply never adds, removes or reorders a chat session, and never
    touches the catalog, the own posts, the selection or the view, in
    whatever state it lands. *)
Theorem reply_keeps_sessions (text : string) (now : Z) (s s1 : State)
    (p : PendingReply) (now' : Z) (t : State) :
  sendMessage text now s = (s1, Some p) ->
  List.map Chat.encounterId (chats (replyTimeout p now' t))
  = List.map Chat.encounterId (chats t)
  /\ nearbyEncounters (replyTimeout p now' t) = nearbyEncounters t
  /\ myEncounters (replyTimeout p now' t) = myEncounters t
  /\ selectedEncounter (replyTimeout p now' t) = selectedEncounter t
  /\ currentView (replyTimeout p now' t) = currentView t
  /\ isTyping (replyTimeout p now' t) = false.
Proof.
  intros Hsend. apply sendMessage_wellFormed in Hsend.
  split; [|split; [|split; [|split; [|split]]]];
    try apply replyTimeout_frame.
  - rewrite replyTimeout_chats.
    apply (@replaceChat_ids _
             (fun c =>
                if View.eqb (sent_currentView p) View.chat
                then replyChat p now'
                else Chat.with_unreadCount (replyChat p now')
                       (Chat.unreadCount c + 1))).
    intros c _. destruct (View.eqb _ _); exact Hsend.
  - unfold replyTimeout.
    destruct (negb (View.eqb (sent_currentView p) View.chat)); reflexivity.
Qed.

Lemma reply_keeps_sessions_witness :
  List.map Chat.encounterId
    (chats (replyTimeout Sample.pending 5500 Sample.initial))
  = List.map Chat.encounterId (chats Sample.initial).
Proof.
  apply (@reply_keeps_sessions "hola" 3000 Sample.chatting Sample.sentState
           Sample.pending 5500 Sample.initial eq_refl).
Defined.

(** ** Selecting from a chat header *)

(** X20: [handleViewProfile] on an id of the catalog selects a candidate of the
    catalog with that id and shows its details; on an unknown id it leaves
    the state as it is. *)
Theorem handleViewProfile_spec (encounterId : string) (s : State) :
  ((exists enc, In enc (nearbyEncounters s)
                /\ Encounter.id enc = encounterId) ->
   exists enc,
     selectedEncounter (handleViewProfile encounterId s) = Some enc
     /\ In enc (nearbyEncounters s)
     /\ Encounter.id enc = encounterId
     /\ currentView (handleViewProfile encounterId s) = View.details)
  /\ ((forall enc, In enc (nearbyEncounters s) ->
                   Encounter.id enc <> encounterId) ->
      handleViewProfile encounterId s = s).
Proof.
  unfold handleViewProfile. split.
  - intros (enc0 & Hin0 & Hid0).
    destruct (find _ (nearbyEncounters s)) as [enc|] eqn:Henc.
    + exists enc. assert (Hs := find_some _ _ Henc).
      apply find_encounter_id in Henc. simpl. tauto.
    + exfalso. apply (find_none _ _ Henc) in Hin0. simpl in Hin0.
      rewrite Hid0, String.eqb_refl in Hin0. discriminate.
  - intros Hcat. now rewrite (find_encounter_None _ Hcat).
Qed.

Lemma handleViewProfile_spec_witness :
  (forall enc, In enc (nearbyEncounters Sample.initial) ->
               Encounter.id enc <> "Z")
  /\ handleViewProfile "Z" Sample.initial = Sample.initial.
Proof.
  assert (H : forall enc, In enc (nearbyEncounters Sample.initial) ->
                          Encounter.id enc <> "Z").
  { intros enc [<-|[<-|[<-|[<-|[]]]]]; discriminate. }
  split; [exact H|].
  exact (proj2 (handleViewProfile_spec "Z" Sample.initial) H).
Defined.

(** ** Clustering: every post is shown once *)

Lemma has_In (ids : list string) (k : string) :
  has ids k = true <-> In k ids.
Proof.
  unfold has. rewrite existsb_exists. split.
  - intros (x & Hin & Heq). apply String.eqb_eq in Heq. now subst.
  - intros Hin. exists k. split; [assumption|apply String.eqb_refl].
Qed.

Lemma has_not_In (ids : list string) (k : string) :
  has ids k = false <-> ~ In k ids.
Proof.
  rewrite <- has_In. destruct (has ids k); split; congruence.
Qed.

Lemma NoDup_map_injective (A B : Type) (f : A -> B) (l : list A) (x y : A) :
  NoDup (List.map f l) -> In x l -> In y l -> f x = f y -> x = y.
Proof.
  induction l as [|a l IH]; simpl; intros Hnd Hx Hy Hxy; [contradiction|].
  inversion Hnd as [|? ? Hnotin Hnd']; subst.
  destruct Hx as [->|Hx], Hy as [->|Hy].
  - reflexivity.
  - exfalso. apply Hnotin. rewrite Hxy. now apply in_map.
  - exfalso. apply Hnotin. rewrite <- Hxy. now apply in_map.
  - now apply IH.
Qed.

(** Two lists without a repeated key, one within the other and covering its
    keys, hold the same elements. *)
Lemma NoDup_map_Permutation (A B : Type) (f : A -> B) (l l' : list A) :
  NoDup (List.map f l) ->
  NoDup (List.map f l') ->
  incl l l' ->
  (forall y, In y l' -> In (f y) (List.map f l)) ->
  Permutation l l'.
Proof.
  intros Hl Hl' Hincl Hcover.
  apply NoDup_Permutation.
  - exact (NoDup_map_inv f l Hl).
  - exact (NoDup_map_inv f l' Hl').
  - intros x. split; [apply Hincl|].
    intros Hx. assert (Hfx := Hcover x Hx). apply in_map_iff in Hfx.
    destruct Hfx as (y & Hyx & Hy).
    assert (y = x) as <-; [|exact Hy].
    apply (@NoDup_map_injective _ _ f l' y x Hl');
      [now apply Hincl|exact Hx|exact Hyx].
Qed.

Section Partition.

Variable pow_approx : float -> float -> float.
Variable T : float.

(** The inner loop extends the group by the posts it adds and the set by
    their ids, which were not in the set. *)
Lemma joinStep_fold (current : Encounter.t) (l : list Encounter.t) :
  forall group ids group' ids',
    fold_left (joinStep pow_approx T current) l (group, ids) = (group', ids') ->
    NoDup ids ->
    exists added,
      group' = group ++ added
      /\ ids' = rev (List.map Encounter.id added) ++ ids
      /\ NoDup ids'
      /\ incl added l.
Proof.
  induction l as [|other l IH]; intros group ids group' ids' Hfold Hnd.
  - simpl in Hfold. injection Hfold as <- <-. exists [].
    rewrite app_nil_r. repeat split; [assumption|intros e []].
  - cbn [fold_left] in Hfold.
    destruct (has ids (Encounter.id other)) eqn:Hhas.
    + rewrite joinStep_processed in Hfold by exact Hhas.
      destruct (IH _ _ _ _ Hfold Hnd) as (added & H1 & H2 & H3 & H4).
      exists added. repeat split; try assumption.
      intros e He. right. now apply H4.
    + rewrite joinStep_fresh in Hfold by exact Hhas.
      destruct (clusterDist pow_approx current other <? T)%float.
      * assert (Hnd' : NoDup (Encounter.id other :: ids)).
        { constructor; [now apply has_not_In|assumption]. }
        destruct (IH _ _ _ _ Hfold Hnd') as (added & H1 & H2 & H3 & H4).
        exists (other :: added). split; [|split; [|split]].
        { rewrite H1, <- app_assoc. reflexivity. }
        { rewrite H2. cbn [List.map rev]. rewrite <- app_assoc.
          reflexivity. }
        { exact H3. }
        { intros e [<-|He]; [now left|right; now apply H4]. }
      * destruct (IH _ _ _ _ Hfold Hnd) as (added & H1 & H2 & H3 & H4).
        exists added. repeat split; try assumption.
        intros e He. right. now apply H4.
Qed.

Lemma placed_group (groups : list Group) (sg : list Encounter.t) (g : Group) :
  Permutation (placed (groups ++ [g]) sg) (members g ++ placed groups sg).
Proof.
  unfold placed. rewrite flat_map_app. cbn [flat_map]. rewrite app_nil_r.
  rewrite app_assoc. apply Permutation_app_comm.
Qed.

Lemma placed_single (groups : list Group) (sg : list Encounter.t)
    (current : Encounter.t) :
  Permutation (placed groups (sg ++ [current])) (current :: placed groups sg).
Proof.
  unfold placed. rewrite <- app_assoc. symmetry.
  apply Permutation_middle.
Qed.

Lemma clusterStep_arranged (markers : list Encounter.t) (groups : list Group)
    (acc : list Cluster * list Encounter.t * list string)
    (current : Encounter.t) :
  In current markers ->
  arranged markers groups acc ->
  exists groups',
    arranged markers groups' (clusterStep pow_approx T markers acc current)
    /\ (let '(_, _, ids) := acc in
        let '(_, _, ids') := clusterStep pow_approx T markers acc current in
        incl ids ids' /\ In (Encounter.id current) ids').
Proof.
  destruct acc as [[cl sg] ids].
  intros Hcur (Hcl & Hgr & Hnd & Hperm & Hincl).
  destruct (has ids (Encounter.id current)) eqn:Hhas.
  - rewrite clusterStep_processed by exact Hhas.
    exists groups. split; [repeat split; assumption|].
    split; [apply incl_refl|now apply has_In].
  - destruct (fold_left (joinStep pow_approx T current) markers
                ([current], Encounter.id current :: ids))
      as [group ids'] eqn:Hfold.
    rewrite (@clusterStep_fresh pow_approx T markers cl sg ids current
               group ids' Hhas Hfold).
    assert (Hnd0 : NoDup (Encounter.id current :: ids)).
    { constructor; [now apply has_not_In|assumption]. }
    destruct (@joinStep_fold current markers _ _ _ _ Hfold Hnd0)
      as (added & H1 & H2 & H3 & H4).
    cbn [app] in H1.
    assert (Hgrow : incl ids ids' /\ In (Encounter.id current) ids').
    { rewrite H2. split.
      - intros k Hk. apply in_app_iff. right. now right.
      - apply in_app_iff. right. now left. }
    assert (Hids : Permutation ids'
                     (List.map Encounter.id
                        (members (current, added) ++ placed groups sg))).
    { rewrite H2, map_app. unfold members. cbn [fst snd List.map].
      rewrite <- Hperm.
      rewrite <- (Permutation_rev (List.map Encounter.id added)).
      symmetry. apply Permutation_middle. }
    assert (Hmem : incl (members (current, added) ++ placed groups sg)
                     markers).
    { intros e He. apply in_app_iff in He.
      destruct He as [[<-|He]|He];
        [exact Hcur|now apply H4|now apply Hincl]. }
    destruct (1 <? List.length group)%nat eqn:Hlen.
    + apply Nat.ltb_lt in Hlen.
      exists (groups ++ [(current, added)]). split; [|exact Hgrow].
      split; [|split; [|split; [|split]]].
      * rewrite map_app, Hcl, H1. reflexivity.
      * apply Forall_app. split; [assumption|].
        constructor; [|constructor].
        cbn [snd]. intros ->. rewrite H1 in Hlen. simpl in Hlen. lia.
      * exact H3.
      * rewrite Hids. apply Permutation_map. symmetry. apply placed_group.
      * intros e He. apply Hmem.
        apply (Permutation_in e (placed_group groups sg (current, added))).
        exact He.
    + apply Nat.ltb_ge in Hlen.
      assert (Hadded : added = []).
      { rewrite H1 in Hlen. destruct added; [reflexivity|].
        simpl in Hlen. lia. }
      subst added.
      exists groups. split; [|exact Hgrow].
      split; [exact Hcl|]. split; [exact Hgr|]. split; [exact H3|]. split.
      * rewrite Hids. apply Permutation_map. symmetry.
        apply placed_single.
      * intros e He. apply Hmem.
        apply (Permutation_in e (placed_single groups sg current)).
        exact He.
Qed.

Lemma clusterStep_fold_arranged (markers l : list Encounter.t) :
  incl l markers ->
  forall groups acc,
    arranged markers groups acc ->
    exists groups',
      arranged markers groups'
        (fold_left (clusterStep pow_approx T markers) l acc)
      /\ (let '(_, _, ids) := acc in
          let '(_, _, ids') :=
            fold_left (clusterStep pow_approx T markers) l acc in
          incl ids ids' /\ incl (List.map Encounter.id l) ids').
Proof.
  induction l as [|current l IH]; intros Hl groups acc Hacc.
  - simpl. exists groups. split; [assumption|]. destruct acc as [[cl sg] ids].
    split; [apply incl_refl|intros k []].
  - simpl.
    assert (Hcur : In current markers) by (apply Hl; now left).
    assert (Hl' : incl l markers) by (intros e He; apply Hl; now right).
    destruct (@clusterStep_arranged markers groups acc current Hcur Hacc)
      as (groups1 & Hstep & Hgrow).
    destruct (IH Hl' _ _ Hstep) as (groups2 & Hfin & Hgrow').
    exists groups2. split; [exact Hfin|].
    destruct acc as [[cl sg] ids].
    destruct (clusterStep pow_approx T markers (cl, sg, ids) current)
      as [[cl1 sg1] ids1].
    destruct (fold_left (clusterStep pow_approx T markers) l (cl1, sg1, ids1))
      as [[cl2 sg2] ids2].
    destruct Hgrow as [Hg1 Hg2]. destruct Hgrow' as [Hg3 Hg4].
    split.
    + intros k Hk. apply Hg3. now apply Hg1.
    + intros k [<-|Hk]; [now apply Hg3|now apply Hg4].
Qed.

(** The clustering places every id once: the cluster markers are those of
    groups of at least two posts; the posts of the groups and of the single
    markers are among the posts given, no two of them with the same id, and
    every id given is the id of one of them. *)
Lemma clusterMarkers_partition (markers : list Encounter.t) :
  exists groups,
    clusters (clusterMarkers pow_approx T markers)
    = List.map groupMarker groups
    /\ Forall (fun g => snd g <> []) groups
    /\ incl (placed groups (singles (clusterMarkers pow_approx T markers)))
         markers
    /\ NoDup (List.map Encounter.id
                (placed groups
                   (singles (clusterMarkers pow_approx T markers))))
    /\ (forall e, In e markers ->
                  In (Encounter.id e)
                    (List.map Encounter.id
                       (placed groups
                          (singles (clusterMarkers pow_approx T markers))))).
Proof.
  unfold clusterMarkers.
  assert (Hinit : arranged markers [] ([], [], [])).
  { repeat split; try constructor; intros k []. }
  destruct (@clusterStep_fold_arranged markers markers
              (incl_refl markers) _ _ Hinit) as (groups & Hfin & Hgrow).
  destruct (fold_left (clusterStep pow_approx T markers) markers ([], [], []))
    as [[cl sg] ids].
  destruct Hfin as (Hcl & Hgr & Hnd & Hperm & Hincl).
  destruct Hgrow as [_ Hcover]. cbn [clusters singles].
  exists groups. repeat split; try assumption.
  - exact (Permutation_NoDup Hperm Hnd).
  - intros e He. apply (Permutation_in _ Hperm). apply Hcover.
    now apply in_map.
Qed.

End Partition.

Section MarkersOnTheMap.

Variable pow_approx : float -> float -> float.
Variable getDistanceInMeters : float -> float -> float -> float -> float.
Variable MATCH_RADIUS : float.

Let markers := clusteredMarkers pow_approx getDistanceInMeters MATCH_RADIUS.
Let shown := markersToShow getDistanceInMeters MATCH_RADIUS.

(** X21: The markers of the map partition the posts to show.  The cluster
    markers are those of groups of posts, each group of at least two: the
    marker carries the id of the first post of its group, the mean
    coordinates of the group and its size.  The posts of the single markers
    and of the groups are posts to show, no two of them have the same id,
    and every post to show has the id of one of them.  When the posts to
    show have pairwise different ids, the single markers and the groups
    together hold exactly the posts to show, each post once. *)
Theorem clusteredMarkers_partition (s : State) :
  exists groups,
    clusters (markers s) = List.map groupMarker groups
    /\ Forall (fun g => 2 <= List.length (members g)) groups
    /\ incl (placed groups (singles (markers s))) (shown s)
    /\ NoDup (List.map Encounter.id (placed groups (singles (markers s))))
    /\ (forall e, In e (shown s) ->
                  In (Encounter.id e)
                    (List.map Encounter.id
                       (placed groups (singles (markers s)))))
    /\ (NoDup (List.map Encounter.id (shown s)) ->
        Permutation (placed groups (singles (markers s))) (shown s)).
Proof.
  assert (Hall : exists groups,
             clusters (markers s) = List.map groupMarker groups
             /\ Forall (fun g => snd g <> []) groups
             /\ incl (placed groups (singles (markers s))) (shown s)
             /\ NoDup (List.map Encounter.id
                         (placed groups (singles (markers s))))
             /\ (forall e, In e (shown s) ->
                           In (Encounter.id e)
                             (List.map Encounter.id
                                (placed groups (singles (markers s)))))).
  { unfold markers, clusteredMarkers, shown.
    destruct (markersToShow getDistanceInMeters MATCH_RADIUS s)
      as [|m ms] eqn:E.
    - exists []. cbn. repeat split; try constructor; intros e [].
    - apply clusterMarkers_partition. }
  destruct Hall as (groups & Hcl & Hgr & Hincl & Hnd & Hcover).
  exists groups. split; [exact Hcl|]. split.
  { apply (Forall_impl _ (P := fun g : Group => snd g <> [])); [|exact Hgr].
    intros [current added] Hne. cbn [snd] in Hne. unfold members.
    cbn [fst snd List.length]. destruct added; [contradiction|simpl; lia]. }
  split; [exact Hincl|]. split; [exact Hnd|]. split; [exact Hcover|].
  intros Hids. apply (@NoDup_map_Permutation _ _ Encounter.id);
    assumption.
Qed.

(** X22: A user with no own post sees no marker on the map, whatever the filters
    and the catalog, and no candidate in the visible list. *)
Theorem no_own_posts_no_markers (s : State) :
  myEncounters s = [] ->
  markers s = {| clusters := []; singles := [] |}
  /\ visibleEncounters getDistanceInMeters MATCH_RADIUS s = [].
Proof.
  intros H. unfold markers, clusteredMarkers, markersToShow,
    visibleEncounters.
  rewrite H. simpl. destruct (mine (mapFilters s)); split; reflexivity.
Qed.

End MarkersOnTheMap.

Lemma clusteredMarkers_partition_witness :
  NoDup
    (List.map Encounter.id
       (markersToShow Scenario.distance Scenario.radius Scenario.published))
  /\ exists groups,
       clusters
         (clusteredMarkers (fun _ _ => 1%float) Scenario.distance
            Scenario.radius Scenario.published)
       = List.map groupMarker groups
       /\ Permutation
            (placed groups
               (singles
                  (clusteredMarkers (fun _ _ => 1%float) Scenario.distance
                     Scenario.radius Scenario.published)))
            (markersToShow Scenario.distance Scenario.radius
               Scenario.published).
Proof.
  assert (Hids : NoDup
                   (List.map Encounter.id
                      (markersToShow Scenario.distance Scenario.radius
                         Scenario.published))).
  { vm_compute.
    repeat (constructor;
            [intros H; repeat (destruct H as [H|H]; [discriminate H|]);
             exact H|]).
    constructor. }
  split; [exact Hids|].
  destruct (@clusteredMarkers_partition (fun _ _ => 1%float)
              Scenario.distance Scenario.radius Scenario.published)
    as (groups & Hcl & _ & _ & _ & _ & Hperm).
  exists groups. split; [exact Hcl|]. exact (Hperm Hids).
Defined.

Lemma no_own_posts_no_markers_witness :
  clusteredMarkers (fun _ _ => 0%float) (fun _ _ _ _ => 0%float) 150
    Sample.initial
  = {| clusters := []; singles := [] |}.
Proof.
  apply (@no_own_posts_no_markers (fun _ _ => 0%float)
           (fun _ _ _ _ => 0%float) 150%float Sample.initial eq_refl).
Defined.

(** ** Sessions stay unique without the race *)

(** X23: Along a sequence of events in which every opener arrives while no
    session is keyed by its candidate, each candidate id keys at most one
    chat session at every step. *)
Theorem sessions_unique_invariant (evs : list Event) (s : State) :
  raceFree evs s -> uniqueSessions s -> uniqueSessions (run evs s).
Proof.
  revert s. induction evs as [|ev evs IH]; intros s Hfree Huniq;
    [exact Huniq|].
  destruct Hfree as [Hev Hfree]. rewrite run_cons. apply IH; [exact Hfree|].
  apply applyEvent_unique; [|exact Huniq].
  destruct ev; try exact I; exact Hev.
Qed.

Lemma sessions_unique_invariant_witness :
  uniqueSessions
    (run [EvConnect Sample.candC; EvOpenerArrives Sample.candC "Hola" 20;
          EvOpenChat "C" 30; EvSendMessage "hola" 40]
       Sample.initial).
Proof.
  apply sessions_unique_invariant.
  - repeat split.
  - constructor.
Defined.

(** ** Own posts *)

Lemma filter_all (A : Type) (keep : A -> bool) (l : list A) :
  (forall x, In x l -> keep x = true) -> filter keep l = l.
Proof.
  induction l as [|a l IH]; simpl; intros H; [reflexivity|].
  rewrite (H a (or_introl eq_refl)), IH; [reflexivity|]. auto.
Qed.

(** X24: Deleting an own post removes every own post with its id and keeps the
    others in their order: what is left is the list of own posts filtered
    by "has another id", so a post that stays has before it the posts that
    were before it and stay, and after it those that were after it and
    stay.  Deleting one that is not there leaves the own posts as they are,
    and deleting twice is deleting once. *)
Theorem handleDeleteEncounter_spec (encounter : Encounter.t) (s : State) :
  myEncounters (handleDeleteEncounter encounter s)
  = filter (fun e => negb (Encounter.id e =? Encounter.id encounter)%string)
      (myEncounters s)
  /\ (forall before e after,
        myEncounters s = before ++ e :: after ->
        Encounter.id e <> Encounter.id encounter ->
        myEncounters (handleDeleteEncounter encounter s)
        = filter
            (fun e => negb (Encounter.id e =? Encounter.id encounter)%string)
            before
          ++ e
          :: filter
               (fun e =>
                  negb (Encounter.id e =? Encounter.id encounter)%string)
               after)
  /\ (forall e, In e (myEncounters (handleDeleteEncounter encounter s))
             <-> In e (myEncounters s)
                 /\ Encounter.id e <> Encounter.id encounter)
  /\ List.length (myEncounters (handleDeleteEncounter encounter s))
     <= List.length (myEncounters s)
  /\ ((forall e, In e (myEncounters s) ->
                 Encounter.id e <> Encounter.id encounter) ->
      myEncounters (handleDeleteEncounter encounter s) = myEncounters s)
  /\ myEncounters
       (handleDeleteEncounter encounter (handleDeleteEncounter encounter s))
     = myEncounters (handleDeleteEncounter encounter s).
Proof.
  change (myEncounters (handleDeleteEncounter encounter s))
    with (filter
            (fun e => negb (Encounter.id e =? Encounter.id encounter)%string)
            (myEncounters s)).
  split; [reflexivity|]. split; [|split; [|split; [|split]]].
  - intros before e after Hsplit Hid. rewrite Hsplit, filter_app.
    cbn [filter]. apply String.eqb_neq in Hid. rewrite Hid. reflexivity.
  - intros e. rewrite filter_In, negb_true_iff, String.eqb_neq. tauto.
  - apply filter_length_le.
  - intros H. apply filter_all. intros e He.
    apply negb_true_iff, String.eqb_neq. now apply H.
  - change (myEncounters
              (handleDeleteEncounter encounter
                 (handleDeleteEncounter encounter s)))
      with (filter
              (fun e =>
                 negb (Encounter.id e =? Encounter.id encounter)%string)
              (filter
                 (fun e =>
                    negb (Encounter.id e =? Encounter.id encounter)%string)
                 (myEncounters s))).
    apply filter_all. intros e He. apply filter_In in He. tauto.
Qed.



(** ** Tag toggles, gallery arrows and card badges *)

(** X26: Toggling a tag flips its membership and leaves every other tag as it
    was; a selection without repetitions stays without repetitions; and
    toggling a tag that was not selected twice restores the selection. *)
Theorem toggleTag_spec (tag : EncounterTag) (prev : list EncounterTag) :
  (forall t, In t (toggleTag tag prev)
             <-> (t <> tag /\ In t prev) \/ (t = tag /\ ~ In tag prev))
  /\ (NoDup prev -> NoDup (toggleTag tag prev))
  /\ (~ In tag prev -> toggleTag tag (toggleTag tag prev) = prev).
Proof.
  assert (Hneq : forall t, negb (tag_eqb t tag) = true <-> t <> tag).
  { intros t. rewrite negb_true_iff. split.
    - intros H ->. destruct tag; discriminate.
    - intros H. destruct (tag_eqb t tag) eqn:E; [|reflexivity].
      apply tag_eqb_eq in E. contradiction. }
  unfold toggleTag. split; [|split].
  - intros t. destruct (includes prev tag) eqn:E.
    + apply includes_In in E. rewrite filter_In, Hneq. tauto.
    + assert (Hnot : ~ In tag prev)
        by (rewrite <- includes_In; congruence).
      rewrite in_app_iff. simpl. split.
      * intros [H|[<-|[]]]; [|tauto].
        left. split; [|assumption]. now intros ->.
      * intros [[_ H]|[-> _]]; auto.
  - intros Hnd. destruct (includes prev tag) eqn:E.
    + now apply NoDup_filter.
    + assert (Hnot : ~ In tag prev)
        by (rewrite <- includes_In; congruence).
      apply NoDup_app; [assumption|repeat constructor; intros []|].
      intros t Ht [<-|[]]. contradiction.
  - intros Hnot.
    assert (E : includes prev tag = false).
    { destruct (includes prev tag) eqn:E; [|reflexivity].
      apply includes_In in E. contradiction. }
    rewrite E.
    assert (E' : includes (prev ++ [tag]) tag = true).
    { apply includes_In, in_app_iff. right. now left. }
    rewrite E', filter_app. simpl.
    assert (Hself : tag_eqb tag tag = true) by now apply tag_eqb_eq.
    rewrite Hself. simpl. rewrite app_nil_r.
    apply filter_all. intros t Ht. apply Hneq. now intros ->.
Qed.

Lemma toggleTag_spec_witness :
  ~ In Flechazo [Interes; Curiosidad]
  /\ toggleTag Flechazo (toggleTag Flechazo [Interes; Curiosidad])
     = [Interes; Curiosidad].
Proof.
  assert (H : ~ In Flechazo [Interes; Curiosidad])
    by (intros [H|[H|[]]]; discriminate).
  split; [exact H|].
  exact (proj2 (proj2 (toggleTag_spec Flechazo [Interes; Curiosidad])) H).
Defined.

(** X27: On a gallery of at least one image and an index inside it, both arrows
    give an index inside it, wrapping around at the ends, and each undoes
    the other. *)
Theorem gallery_arrows (length idx : Z) :
  (0 <= idx < length)%Z ->
  (0 <= galleryPrev length idx < length)%Z
  /\ (0 <= galleryNext length idx < length)%Z
  /\ galleryPrev length 0 = (length - 1)%Z
  /\ galleryNext length (length - 1) = 0%Z
  /\ galleryNext length (galleryPrev length idx) = idx
  /\ galleryPrev length (galleryNext length idx) = idx.
Proof.
  intros H. unfold galleryPrev, galleryNext.
  destruct (Z.ltb_spec 0 idx); destruct (Z.ltb_spec idx (length - 1));
    cbv iota; repeat split; try lia;
    repeat match goal with
      | |- context [(?a <? ?b)%Z] =>
          destruct (Z.ltb_spec a b)
      end; lia.
Qed.

Lemma gallery_arrows_witness :
  galleryNext 3 (galleryPrev 3 0) = 0%Z.
Proof.
  assert (H : (0 <= 0 < 3)%Z) by lia.
  destruct (@gallery_arrows 3%Z 0%Z H) as (_ & _ & _ & _ & Hnp & _).
  exact Hnp.
Defined.

(** X28: A card shows at most one status badge, and none exactly when badges are
    switched off or the status is [PENDING] or [HIDDEN]. *)
Theorem badges_at_most_one (showStatus : bool) (encounter : Encounter.t) :
  List.length (EncounterCard.badges showStatus encounter) <= 1
  /\ (EncounterCard.badges showStatus encounter = []
      <-> showStatus = false
          \/ Encounter.status encounter = PENDING
          \/ Encounter.status encounter = HIDDEN).
Proof.
  unfold EncounterCard.badges.
  destruct showStatus, (Encounter.status encounter); simpl;
    (split; [lia|]); split; intros H;
    try discriminate; try tauto;
    destruct H as [H|[H|H]]; discriminate.
Qed.

(** ** The explore tab on the scenario *)

Lemma exploreList_drilldown_witness :
  In Sample.candA
    (exploreList Scenario.distance Scenario.radius (Some "mine-quick-1") []
       Scenario.drilling)
  /\ In Sample.candA
       (visibleEncounters Scenario.distance Scenario.radius
          Scenario.drilling).
Proof.
  assert (H : In Sample.candA
                (exploreList Scenario.distance Scenario.radius
                   (Some "mine-quick-1") [] Scenario.drilling))
    by (right; left; reflexivity).
  split; [exact H|].
  apply (proj1 (@exploreList_drilldown Scenario.distance Scenario.radius
                  "mine-quick-1" [] Scenario.drilling eq_refl
                  ltac:(discriminate)) Sample.candA H).
Defined.

Lemma exploreList_list_witness :
  In Sample.candA
    (exploreList Scenario.distance Scenario.radius None [Flechazo]
       Scenario.listing).
Proof.
  apply (proj2 (@exploreList_list Scenario.distance Scenario.radius None
                  [Flechazo] Scenario.listing eq_refl)
           ltac:(discriminate) Sample.candA).
  split; [right; left; reflexivity|].
  exists Flechazo. split; left; reflexivity.
Defined.

Lemma nearbyCount_is_drilldown_length_witness :
  List.length
    (exploreList Scenario.distance Scenario.radius
       (Some (Encounter.id Scenario.ownPost)) [] Scenario.drilling)
  = nearbyCount Scenario.distance Scenario.radius Scenario.ownPost
      Scenario.drilling.
Proof.
  apply (@nearbyCount_is_drilldown_length Scenario.distance Scenario.radius
           Scenario.ownPost [] Scenario.drilling eq_refl).
  - repeat constructor. intros [].
  - left. reflexivity.
  - discriminate.
Defined.

Lemma visible_is_counted_witness :
  exists mine,
    In mine (myEncounters Scenario.published)
    /\ withinRadius Scenario.distance Scenario.radius mine Sample.candA = true
    /\ In Sample.candA
         (filter
            (fun other =>
               withinRadius Scenario.distance Scenario.radius mine other)
            (visibleEncounters Scenario.distance Scenario.radius
               Scenario.published))
    /\ nearbyCount Scenario.distance Scenario.radius mine Scenario.published
       = List.length
           (filter
              (fun other =>
                 withinRadius Scenario.distance Scenario.radius mine other)
              (visibleEncounters Scenario.distance Scenario.radius
                 Scenario.published))
    /\ 1 <= nearbyCount Scenario.distance Scenario.radius mine
              Scenario.published.
Proof.
  apply (@visible_is_counted Scenario.distance Scenario.radius Sample.candA
           Scenario.published).
  right. left. reflexivity.
Defined.

Lemma handleDeleteEncounter_spec_witness :
  ((forall e, In e (myEncounters Sample.twoPosts) ->
              Encounter.id e <> Encounter.id Sample.candA)
   /\ myEncounters (handleDeleteEncounter Sample.candA Sample.twoPosts)
      = myEncounters Sample.twoPosts)
  /\ myEncounters
       (handleDeleteEncounter
          (quickEncounter 2 Sample.origin Sample.initial) Sample.twoPosts)
     = [quickEncounter 1 Sample.origin Sample.initial].
Proof.
  assert (H : forall e, In e (myEncounters Sample.twoPosts) ->
                        Encounter.id e <> Encounter.id Sample.candA)
    by (intros e [<-|[<-|[]]]; discriminate).
  split; [split; [exact H|]|].
  - exact (proj1 (proj2 (proj2 (proj2 (proj2
             (handleDeleteEncounter_spec Sample.candA Sample.twoPosts))))) H).
  - exact (proj1 (proj2
             (handleDeleteEncounter_spec
                (quickEncounter 2 Sample.origin Sample.initial)
                Sample.twoPosts))
             [quickEncounter 2 Sample.origin Sample.initial]
             (quickEncounter 1 Sample.origin Sample.initial) []
             eq_refl ltac:(discriminate)).
Defined.

(** X19: A message sent from the chat view and its reply, with any events in
    between: when the reply lands, every session with the chat's id holds
    the messages the open chat had when the message was sent, followed by
    the user's message and the partner's reply, with the unread count the
    open chat had at that moment; what the events in between did to such a
    session is overwritten. *)
Theorem reply_lands_as_sent (text : string) (now : Z) (s s1 : State)
    (p : PendingReply) (evs : list Event) (now' : Z) (c' : Chat.t) :
  sendMessage text now s = (s1, Some p) ->
  currentView s = View.chat ->
  In c' (chats (replyTimeout p now' (run evs s1))) ->
  Chat.encounterId c' = Chat.encounterId (sent_activeChat p) ->
  Chat.unreadCount c' = Chat.unreadCount (sent_activeChat p)
  /\ exists msg reply,
       Chat.messages c' = Chat.messages (sent_activeChat p) ++ [msg; reply]
       /\ ChatMessage.text msg = text
       /\ ChatMessage.senderId msg = UserProfile.id (userProfile s)
       /\ ChatMessage.senderId reply = "partner"
       /\ ChatMessage.text reply = REPLY_TEXT.
Proof.
  intros Hsend Hview Hin Hk.
  assert (Hinv := sendMessage_inv _ _ _ Hsend).
  destruct Hinv as (_ & Hcv & Hup & _).
  rewrite replyTimeout_chats, Hcv, Hview in Hin. simpl in Hin.
  destruct (@replaceChat_In _ (fun _ => replyChat p now') _ _ Hin Hk)
    as (c & _ & _ & ->).
  { intros _ _. rewrite replyChat_encounterId, Hup. reflexivity. }
  unfold replyChat. rewrite Hup. simpl. split; [reflexivity|].
  eexists _, _. rewrite <- app_assoc. simpl. repeat split.
Qed.

Lemma reply_lands_as_sent_witness :
  In (replyChat Sample.pending 5500)
    (chats
       (replyTimeout Sample.pending 5500
          (run [EvSetCurrentView View.main] Sample.sentState)))
  /\ Chat.unreadCount (replyChat Sample.pending 5500)
     = Chat.unreadCount Sample.chatM.
Proof.
  assert (H : In (replyChat Sample.pending 5500)
                (chats
                   (replyTimeout Sample.pending 5500
                      (run [EvSetCurrentView View.main] Sample.sentState))))
    by (left; reflexivity).
  split; [exact H|].
  apply (@reply_lands_as_sent "hola" 3000 Sample.chatting Sample.sentState
           Sample.pending [EvSetCurrentView View.main] 5500
           (replyChat Sample.pending 5500) eq_refl eq_refl H eq_refl).
Defined.

(** ** Ids of own posts *)

Lemma to_int_nonnil (z : Z) :
  Z.to_int z <> Decimal.Pos Decimal.Nil
  /\ Z.to_int z <> Decimal.Neg Decimal.Nil.
Proof.
  destruct z as [|p|p]; simpl; split; try discriminate;
    intros H; injection H as H;
    now apply DecimalPos.Unsigned.to_uint_nonnil in H.
Qed.

(** [`${n}`] tells integers apart. *)
Lemma toString_inj (a b : Z) : JS.toString a = JS.toString b -> a = b.
Proof.
  unfold JS.toString. intros H.
  apply (f_equal NilZero.int_of_string) in H.
  destruct (to_int_nonnil a) as [Ha Ha'], (to_int_nonnil b) as [Hb Hb'].
  rewrite !NilZero.isi in H by assumption.
  injection H as H. now apply DecimalZ.to_int_inj.
Qed.

(** Its first character is a digit or the minus sign, never a letter. *)
Lemma toString_not_q (z : Z) (rest : string) :
  JS.toString z <> ("q" ++ rest)%string.
Proof.
  unfold JS.toString.
  destruct z as [|p|p]; simpl; try discriminate.
  unfold NilZero.string_of_uint.
  destruct (Pos.to_uint p); simpl; discriminate.
Qed.

Lemma publishedAt_id_fresh (e : Encounter.t) (n now : Z) (quick : bool) :
  publishedAt n e ->
  n <> now ->
  Encounter.id e
  <> ((if quick then "mine-quick-" else "mine-") ++ JS.toString now)%string.
Proof.
  intros [He|He] Hts Heq; rewrite He in Heq; destruct quick; simpl in Heq.
  - injection Heq as Heq.
    exact (@toString_not_q n ("uick-" ++ JS.toString now) Heq).
  - injection Heq as Heq. apply toString_inj in Heq. contradiction.
  - injection Heq as Heq. apply toString_inj in Heq. contradiction.
  - injection Heq as Heq. symmetry in Heq.
    exact (@toString_not_q now ("uick-" ++ JS.toString n) Heq).
Qed.

Lemma publishedBefore_mono (bound bound' : Z) (l : list Encounter.t) :
  (bound <= bound')%Z ->
  Forall (publishedBefore bound) l -> Forall (publishedBefore bound') l.
Proof.
  intros Hle. apply Forall_impl. intros e (n & Hn & He).
  exists n. split; [lia|exact He].
Qed.

(** The two reads of the clock coinciding, the handlers are the ones with a
    single reading. *)
Lemma handleCreateEncounterAt_same (now : Z) (s : State) :
  handleCreateEncounterAt now now s = handleCreateEncounter now s.
Proof. reflexivity. Qed.

Lemma handleQuickPublishAt_same (now : Z) (s : State) :
  handleQuickPublishAt now now s = handleQuickPublish now s.
Proof. reflexivity. Qed.

(** X29: The ids of the own posts stay pairwise different as long as the
    clock reading that a publish puts into the id is later than the readings
    in the ids of the posts already there, whatever the second reading, the
    one stored as the timestamp, is: if the ids are distinct and each was
    built from a reading earlier than [bound], and [bound <= idNow], then
    after either publish handler the ids are distinct and each was built
    from a reading earlier than [idNow + 1]. *)
Theorem publish_keeps_ids_distinct (bound idNow tsNow : Z) (s : State) :
  Forall (publishedBefore bound) (myEncounters s) ->
  NoDup (List.map Encounter.id (myEncounters s)) ->
  (bound <= idNow)%Z ->
  (Forall (publishedBefore (idNow + 1))
     (myEncounters (handleCreateEncounterAt idNow tsNow s))
   /\ NoDup (List.map Encounter.id
               (myEncounters (handleCreateEncounterAt idNow tsNow s))))
  /\ (Forall (publishedBefore (idNow + 1))
        (myEncounters (handleQuickPublishAt idNow tsNow s))
      /\ NoDup (List.map Encounter.id
                  (myEncounters (handleQuickPublishAt idNow tsNow s)))).
Proof.
  intros Hst Hnd Hle.
  assert (Hfresh : forall quick : bool,
            ~ In ((if quick then "mine-quick-" else "mine-")
                  ++ JS.toString idNow)%string
                (List.map Encounter.id (myEncounters s))).
  { intros quick Hin. apply in_map_iff in Hin.
    destruct Hin as (e & He & Hin).
    rewrite Forall_forall in Hst. destruct (Hst e Hin) as (n & Hn & Hat).
    apply (@publishedAt_id_fresh e n idNow quick); [exact Hat|lia|exact He]. }
  assert (Hst' : Forall (publishedBefore (idNow + 1)) (myEncounters s)).
  { apply (@publishedBefore_mono bound); [lia|exact Hst]. }
  unfold handleCreateEncounterAt, handleQuickPublishAt. split.
  - destruct (mapCenter s); [|now split].
    destruct (falsy _ || falsy _); [now split|].
    destruct (5 <=? _)%nat; [now split|]. simpl. split.
    + constructor; [|assumption].
      exists idNow. split; [lia|now left].
    + constructor; [exact (Hfresh false)|assumption].
  - destruct (mapCenter s); [|now split].
    destruct (5 <=? _)%nat; [now split|]. simpl. split.
    + constructor; [|assumption].
      exists idNow. split; [lia|now right].
    + constructor; [exact (Hfresh true)|assumption].
Qed.

Lemma publish_keeps_ids_distinct_witness :
  Forall (publishedBefore 4)
    (myEncounters (handleQuickPublishAt 3 4 Sample.twoPosts))
  /\ NoDup (List.map Encounter.id
              (myEncounters (handleQuickPublishAt 3 4 Sample.twoPosts))).
Proof.
  apply (@publish_keeps_ids_distinct 3 3 4 Sample.twoPosts).
  - constructor; [exists 2%Z; split; [lia|right; reflexivity]|].
    constructor; [exists 1%Z; split; [lia|right; reflexivity]|].
    constructor.
  - change (List.map Encounter.id (myEncounters Sample.twoPosts))
      with ["mine-quick-2"; "mine-quick-1"].
    constructor; [intros [H|[]]; discriminate H|].
    constructor; [intros []|constructor].
  - lia.
Defined.

(** ** The inbound like *)

Lemma run_liked_by_them (evs : list Event) (s : State) (e' : Encounter.t) :
  In e' (nearbyEncounters (run evs s)) ->
  Encounter.status e' = LIKED_BY_THEM ->
  In e' (nearbyEncounters s).
Proof.
  revert s. induction evs as [|ev evs IH]; intros s Hin Hst; [exact Hin|].
  rewrite run_cons in Hin.
  apply (applyEvent_liked_by_them ev); [|exact Hst]. now apply IH.
Qed.

(** X30: When the generated candidates are all [PENDING], as the generator
    builds them, the only candidate that is ever [LIKED_BY_THEM] is the
    first generated one as the load marked it: after the load and any
    sequence of events, a catalog entry with that status is that entry; and
    after a load on the fallback position no entry ever has it. *)
Theorem only_first_is_liked_by_them
    (encounters : list Encounter.t) (evs : list Event) (s : State)
    (e' : Encounter.t) :
  Forall (fun e => Encounter.status e = PENDING) encounters ->
  Encounter.status e' = LIKED_BY_THEM ->
  (In e' (nearbyEncounters (run evs (handleEncountersLoaded encounters s))) ->
   exists first rest,
     encounters = first :: rest
     /\ e' = Encounter.with_status first LIKED_BY_THEM)
  /\ ~ In e'
       (nearbyEncounters
          (run evs (handleEncountersLoadedFallback encounters s))).
Proof.
  intros Hpending Hst. split.
  - intros Hin. apply run_liked_by_them in Hin; [|exact Hst].
    simpl in Hin. destruct encounters as [|first rest]; [contradiction|].
    exists first, rest. split; [reflexivity|].
    destruct Hin as [<-|Hin]; [reflexivity|].
    inversion Hpending as [|? ? _ Hrest]; subst.
    rewrite Forall_forall in Hrest. apply Hrest in Hin. congruence.
  - intros Hin. apply run_liked_by_them in Hin; [|exact Hst].
    simpl in Hin. rewrite Forall_forall in Hpending.
    apply Hpending in Hin. congruence.
Qed.

Lemma only_first_is_liked_by_them_witness :
  exists first rest,
    [Sample.candA; Sample.candB] = first :: rest
    /\ Encounter.with_status Sample.candA LIKED_BY_THEM
       = Encounter.with_status first LIKED_BY_THEM.
Proof.
  apply (proj1
           (@only_first_is_liked_by_them [Sample.candA; Sample.candB]
              [EvConnect Sample.candB] Sample.initial
              (Encounter.with_status Sample.candA LIKED_BY_THEM)
              ltac:(repeat constructor) eq_refl)).
  left. reflexivity.
Defined.
